(** * CyberTune equalizer engine (equ.py): a shallow embedding and its properties

    The audio path of [equ.py] (classes [AudioWorker], [Visualizer] and the
    preset handling of [EqualizerApp]) is embedded as pure functions over
    explicit state records.  Samples are real numbers: numpy's float64
    arithmetic is idealised by the field [R], so rounding, infinities and NaN
    are outside the model.  Arrays of shape (frames, channels) are lists of
    frames, a frame being the list of its channel samples.

    Library routines the program calls are modelled by their documented
    behaviour: numpy's element-wise operations, [np.clip], [np.mean],
    [np.hanning], [np.fft.rfft], [np.linspace]; scipy's [sosfilt] (cascaded
    biquads in transposed direct form II) and the argument checks of
    [scipy.signal.bessel].  The Bessel coefficient computation itself and the
    decoder [sf.read] are parameters of the development. *)

From Stdlib Require Import String Reals Lra Lia ZArith Bool Arith List.
Import ListNotations.
Local Open Scope R_scope.

(** ** Python exceptions the modelled code can raise *)

Inductive exn : Type :=
| ValueError
| LibsndfileError.

(** ** numpy arrays *)

Module Np.

Definition frame := list R.
(** A two-dimensional array of shape (frames, channels). *)
Definition block := list frame.

(** [a * c] and [a *= c] for a scalar [c]. *)
Definition scale (a : block) (c : R) : block :=
  map (map (fun x => x * c)) a.

Fixpoint zip_with {A B C : Type} (f : A -> B -> C) (l : list A) (m : list B)
  : list C :=
  match l, m with
  | x :: l', y :: m' => f x y :: zip_with f l' m'
  | _, _ => []
  end.

(** [a += b] for arrays of one shape. *)
Definition add (a b : block) : block :=
  zip_with (zip_with Rplus) a b.

(** [a.fill(0)]. *)
Definition fill0 (a : block) : block :=
  map (map (fun _ => 0)) a.

(** [a[lo:hi]] along the first axis; Python slices never raise. *)
Definition slice {A : Type} (a : list A) (lo hi : nat) : list A :=
  firstn (hi - lo) (skipn lo a).

(** [np.clip(x, lo, hi)] on one sample: [minimum(maximum(x, lo), hi)]. *)
Definition clip1 (lo hi x : R) : R := Rmin (Rmax x lo) hi.

Definition clip (a : block) (lo hi : R) : block :=
  map (map (clip1 lo hi)) a.

Definition shape (a : block) : list nat := map (@length R) a.

(** Broadcasting of one row to the width of the destination row: equal
    widths are kept, a single channel is repeated, anything else does not
    broadcast. *)
Definition broadcast_row (width : nat) (r : frame) : option frame :=
  if Nat.eqb (length r) width then Some r
  else if Nat.eqb (length r) 1 then Some (repeat (hd 0 r) width)
  else None.

Fixpoint broadcast_rows (src dst : block) : option block :=
  match src, dst with
  | [], [] => Some []
  | r :: src', d :: dst' =>
      match broadcast_row (length d) r, broadcast_rows src' dst' with
      | Some r', Some rest => Some (r' :: rest)
      | _, _ => None
      end
  | _, _ => None
  end.

(** [np.clip(a, lo, hi, out)]: the clipped array is written into [out],
    whose shape decides; [None] stands for the ValueError numpy raises when
    [a] does not broadcast to the shape of [out] (nothing is written then).
    Both arrays have [frames] rows here. *)
Definition clip_out (a : block) (lo hi : R) (out : block) : option block :=
  broadcast_rows (clip a lo hi) out.

Definition sum (l : list R) : R := fold_right Rplus 0 l.

(** [np.mean(a, axis=1)]: the average over the channels of each frame. *)
Definition mean_axis1 (a : block) : list R :=
  map (fun fr => sum fr / INR (length fr)) a.

(** [np.hanning(M)]: empty for [M < 1], [[1]] for [M = 1], else
    [0.5 + 0.5 * cos(pi * n / (M - 1))] for [n = 1 - M, 3 - M, ..., M - 1]. *)
Definition hanning (M : nat) : list R :=
  match M with
  | O => []
  | S O => [1]
  | _ => map (fun k : nat =>
                0.5 + 0.5 * cos (PI * (1 - INR M + 2 * INR k) / (INR M - 1)))
             (seq 0 M)
  end.

(** Element-wise product of two one-dimensional arrays of one length. *)
Definition mul1 (a b : list R) : list R := zip_with Rmult a b.

(** Real and imaginary part of bin [k] of the discrete Fourier transform. *)
Definition dft_re (x : list R) (k : nat) : R :=
  sum (map (fun j : nat =>
              nth j x 0 * cos (2 * PI * INR j * INR k / INR (length x)))
           (seq 0 (length x))).

Definition dft_im (x : list R) (k : nat) : R :=
  - sum (map (fun j : nat =>
                nth j x 0 * sin (2 * PI * INR j * INR k / INR (length x)))
             (seq 0 (length x))).

(** [np.abs(np.fft.rfft(x))]: the magnitudes of the bins [0 .. n/2]; rfft
    raises ValueError on an empty array. *)
Definition abs_rfft (x : list R) : exn + list R :=
  match x with
  | [] => inl ValueError
  | _ => inr (map (fun k => sqrt (Rsqr (dft_re x k) + Rsqr (dft_im x k)))
                  (seq 0 (length x / 2 + 1)))
  end.

(** [np.linspace(0, stop, num).astype(int)]: the points [i * stop / (num-1)]
    truncated to integers. *)
Definition linspace_int (stop num : nat) : list nat :=
  map (fun i => (i * stop / (num - 1))%nat) (seq 0 num).

(** [data[indices]] (fancy indexing; every index is in range here). *)
Definition take (data : list R) (indices : list nat) : list R :=
  map (fun i => nth i data 0) indices.

End Np.

(** ** scipy.signal *)

Module Sp.

(** One second-order section [b0 b1 b2 a0 a1 a2]; scipy requires [a0 = 1]
    and its filter loop does not read it. *)
Record biquad : Type := Biquad
  { b0 : R; b1 : R; b2 : R; a0 : R; a1 : R; a2 : R }.

Definition sos := list biquad.

(** The two delay values of a section. *)
Definition delay := (R * R)%type.

(** One sample through one section (transposed direct form II). *)
Definition biquad_step (s : biquad) (z : delay) (x : R) : R * delay :=
  let x_new := b0 s * x + fst z in
  (x_new, (b1 s * x - a1 s * x_new + snd z, b2 s * x - a2 s * x_new)).

(** One sample through the cascade, each section with its own delays. *)
Fixpoint cascade_step (f : sos) (zs : list delay) (x : R) : R * list delay :=
  match f, zs with
  | s :: f', z :: zs' =>
      let (x_new, z') := biquad_step s z x in
      let (y, zs'') := cascade_step f' zs' x_new in
      (y, z' :: zs'')
  | _, _ => (x, [])
  end.

(** One frame: every channel through the cascade with that channel's
    delays. *)
Fixpoint frame_step (f : sos) (zi : list (list delay)) (fr : Np.frame)
  : Np.frame * list (list delay) :=
  match fr, zi with
  | x :: fr', zs :: zi' =>
      let (y, zs') := cascade_step f zs x in
      let (ys, zi'') := frame_step f zi' fr' in
      (y :: ys, zs' :: zi'')
  | _, _ => ([], [])
  end.

(** [sosfilt(sos, x, axis=0, zi=zi)]: the filtered block and the final
    delays [zf]. *)
Fixpoint sosfilt_zi (f : sos) (zi : list (list delay)) (x : Np.block)
  : Np.block * list (list delay) :=
  match x with
  | [] => ([], zi)
  | fr :: x' =>
      let (y, zi') := frame_step f zi fr in
      let (ys, zf) := sosfilt_zi f zi' x' in
      (y :: ys, zf)
  end.

Definition channels (x : Np.block) : nat :=
  match x with
  | [] => O
  | fr :: _ => length fr
  end.

(** The delays of a filter at rest: all zero, per channel and section. *)
Definition zi_rest (f : sos) (nchan : nat) : list (list delay) :=
  repeat (repeat (0, 0) (length f)) nchan.

(** [sosfilt(sos, x, axis=0)]: without [zi] the filter starts at rest, and
    only the filtered block is returned. *)
Definition sosfilt (f : sos) (x : Np.block) : Np.block :=
  fst (sosfilt_zi f (zi_rest f (channels x)) x).

(** The argument checks of [bessel(N, [low, high], btype='bandpass', fs=fs)]
    (scipy's [iirfilter]): the critical frequencies are normalised to
    [2 * Wn / fs], must be positive, strictly increasing and below 1;
    otherwise ValueError. *)
Definition bessel_args_ok (low high fs : R) : bool :=
  let wl := 2 * low / fs in
  let wh := 2 * high / fs in
  if Rlt_dec 0 wl then
    if Rlt_dec 0 wh then
      if Rlt_dec wl wh then
        if Rlt_dec wl 1 then
          if Rlt_dec wh 1 then true else false
        else false
      else false
    else false
  else false.

End Sp.

(** ** Audio constants and presets *)

Definition BLOCK_SIZE : nat := 2048.

Definition BANDS : list Z :=
  [32; 64; 125; 250; 500; 1000; 2000; 4000; 8000; 16000]%Z.

Definition PRESETS : list (string * list Z) :=
  [ ("Flat"%string,       [0; 0; 0; 0; 0; 0; 0; 0; 0; 0]%Z);
    ("Rock"%string,       [5; 4; 3; 0; -1; -1; 0; 3; 4; 5]%Z);
    ("Pop"%string,        [-2; -1; 0; 2; 4; 4; 2; 0; -1; -2]%Z);
    ("Jazz"%string,       [4; 3; 1; 2; -2; -2; 0; 1; 3; 4]%Z);
    ("Classical"%string,  [5; 4; 3; 2; -1; -1; 0; 2; 4; 5]%Z);
    ("Electronic"%string, [6; 5; 0; -2; 2; 0; 4; 5; 6; 6]%Z);
    ("Vocal"%string,      [-3; -2; -1; 1; 3; 4; 4; 3; 1; -1]%Z) ].

(** [PRESETS[name]], with [None] for [name not in PRESETS]. *)
Fixpoint dict_get {V : Type} (d : list (string * V)) (name : string)
  : option V :=
  match d with
  | [] => None
  | (k, v) :: d' => if String.eqb name k then Some v else dict_get d' name
  end.

(** ** AudioWorker *)

Record AudioWorker : Type := mkAudioWorker
  { data : option Np.block;
    fs : Z;
    current_frame : nat;
    is_playing : bool;
    gains : list R;
    preamp : R;
    master_vol : R;
    bass_boost : R;
    treble_boost : R;
    is_bass_booster_active : bool;
    sos_filters : list Sp.sos }.

(** [AudioWorker.__init__]. *)
Definition AudioWorker_init : AudioWorker :=
  {| data := None;
     fs := 44100;
     current_frame := 0;
     is_playing := false;
     gains := repeat 0 (length BANDS);
     preamp := 1.0;
     master_vol := 0.8;
     bass_boost := 0.0;
     treble_boost := 0.0;
     is_bass_booster_active := false;
     sos_filters := [] |}.

Definition set_data (w : AudioWorker) (d : Np.block) (rate : Z) : AudioWorker :=
  mkAudioWorker (Some d) rate (current_frame w) (is_playing w) (gains w)
    (preamp w) (master_vol w) (bass_boost w) (treble_boost w)
    (is_bass_booster_active w) (sos_filters w).

Definition set_current_frame (w : AudioWorker) (n : nat) : AudioWorker :=
  mkAudioWorker (data w) (fs w) n (is_playing w) (gains w)
    (preamp w) (master_vol w) (bass_boost w) (treble_boost w)
    (is_bass_booster_active w) (sos_filters w).

Definition set_is_playing (w : AudioWorker) (p : bool) : AudioWorker :=
  mkAudioWorker (data w) (fs w) (current_frame w) p (gains w)
    (preamp w) (master_vol w) (bass_boost w) (treble_boost w)
    (is_bass_booster_active w) (sos_filters w).

Definition set_gains (w : AudioWorker) (g : list R) : AudioWorker :=
  mkAudioWorker (data w) (fs w) (current_frame w) (is_playing w) g
    (preamp w) (master_vol w) (bass_boost w) (treble_boost w)
    (is_bass_booster_active w) (sos_filters w).

Definition set_sos_filters (w : AudioWorker) (l : list Sp.sos) : AudioWorker :=
  mkAudioWorker (data w) (fs w) (current_frame w) (is_playing w) (gains w)
    (preamp w) (master_vol w) (bass_boost w) (treble_boost w)
    (is_bass_booster_active w) l.

(** [enumerate(l)]. *)
Definition enumerate {A : Type} (l : list A) : list (nat * A) :=
  combine (seq 0 (length l)) l.

(** The decibel total of band [i], accumulated as in the loop body of
    [callback]: the band gain, then for [i <= 2] the bass boost and, with the
    booster on, 8.0, then for [i >= 7] the treble boost.  [gains] keeps the
    ten entries [__init__] gives it and there are at most ten filters, so the
    index is always in range. *)
Definition total_gain (w : AudioWorker) (i : nat) : R :=
  let total_gain := nth i (gains w) 0 in
  let total_gain :=
    if (i <=? 2)%nat then
      let total_gain := total_gain + bass_boost w in
      if is_bass_booster_active w then total_gain + 8.0 else total_gain
    else total_gain in
  if (7 <=? i)%nat then total_gain + treble_boost w else total_gain.

(** [10**(total_gain/20) - 1]. *)
Definition linear_gain (total_gain : R) : R :=
  Rpower 10 (total_gain / 20) - 1.

(** One turn of the band loop of [callback] on the accumulator
    [processed_chunk]; [chunk] is the pre-amplified dry block. *)
Definition band_step (w : AudioWorker) (chunk processed_chunk : Np.block)
  (isos : nat * Sp.sos) : Np.block :=
  let (i, sos) := isos in
  if Req_dec_T (total_gain w i) 0 then processed_chunk
  else
    let filtered := Sp.sosfilt sos chunk in
    Np.add processed_chunk (Np.scale filtered (linear_gain (total_gain w i))).

(** The band loop: [processed_chunk = chunk.copy()], then one [band_step] per
    entry of [enumerate(self.sos_filters)]. *)
Definition band_loop (w : AudioWorker) (chunk : Np.block) : Np.block :=
  fold_left (band_step w chunk) (enumerate (sos_filters w)) chunk.

(** What one call of [callback] leaves behind: the worker, the device buffer
    [outdata], the array emitted on [spectrum_ready] (if the call got that
    far) and the exception that left the call (if any). *)
Record CallbackResult : Type := mkCallbackResult
  { cb_worker : AudioWorker;
    cb_outdata : Np.block;
    cb_emitted : option (list R);
    cb_raised : option exn }.

(** The spectrum lines of [callback]:
    [np.abs(np.fft.rfft(avg_signal * np.hanning(len(avg_signal))))] for
    [avg_signal = np.mean(processed_chunk, axis=1)]. *)
Definition spectrum_of (processed_chunk : Np.block) : exn + list R :=
  let avg_signal := Np.mean_axis1 processed_chunk in
  Np.abs_rfft (Np.mul1 avg_signal (Np.hanning (length avg_signal))).

(** [AudioWorker.callback(outdata, frames, time, status)]; [time] and
    [status] are not read.  [outdata] arrives with [frames] rows and whatever
    contents the device left in it. *)
Definition callback (w : AudioWorker) (outdata : Np.block) (frames : nat)
  : CallbackResult :=
  match is_playing w, data w with
  | true, Some d =>
      let chunk_end := (current_frame w + frames)%nat in
      if (length d <? chunk_end)%nat then
        mkCallbackResult (set_is_playing w false) outdata None None
      else
        let chunk := Np.slice d (current_frame w) chunk_end in
        let chunk := Np.scale chunk (preamp w) in
        let processed_chunk := band_loop w chunk in
        let processed_chunk := Np.scale processed_chunk (master_vol w) in
        match Np.clip_out processed_chunk (-1) 1 outdata with
        | None => mkCallbackResult w outdata None (Some ValueError)
        | Some outdata' =>
            match spectrum_of processed_chunk with
            | inl e => mkCallbackResult w outdata' None (Some e)
            | inr fft_data =>
                mkCallbackResult
                  (set_current_frame w (current_frame w + frames)%nat)
                  outdata' (Some fft_data) None
            end
        end
  | _, _ => mkCallbackResult w (Np.fill0 outdata) None None
  end.

(** The device calling [callback] [n] times in a row with buffers of
    [frames] rows, each arriving with the contents [outdata]; the buffers
    handed back are collected, latest first. *)
Fixpoint run_callbacks (n : nat) (w : AudioWorker) (outdata : Np.block)
  (frames : nat) : AudioWorker * list Np.block :=
  match n with
  | O => (w, [])
  | S n' =>
      let (w', outs) := run_callbacks n' w outdata frames in
      let r := callback w' outdata frames in
      (cb_worker r, cb_outdata r :: outs)
  end.

(** ** Filter construction and loading *)

Section Loading.

(** The second-order sections scipy's Bessel design yields for arguments
    that pass its checks. *)
Variable bessel_coeffs : nat -> R * R -> R -> Sp.sos.

(** The decoder [sf.read(path, always_2d=True)]: the frames and the sample
    rate, or the decoder's exception. *)
Variable sf_read : string -> exn + (Np.block * Z).

(** [bessel(N, [low, high], btype='bandpass', fs=fs, output='sos')]. *)
Definition bessel (N : nat) (Wn : R * R) (rate : R) : exn + Sp.sos :=
  if Sp.bessel_args_ok (fst Wn) (snd Wn) rate
  then inr (bessel_coeffs N Wn rate)
  else inl ValueError.

(** The pass band [[low, high]] that [_update_filters] computes for a band
    centre [freq] at sample rate [rate]. *)
Definition band_edges (rate : Z) (freq : Z) : R * R :=
  let low := IZR freq * 0.707 in
  let high := Rmin (IZR freq * 1.414) (IZR rate / 2 - 1) in
  (low, high).

(** The [for freq in BANDS] loop of [_update_filters]; an exception of
    [bessel] leaves the loop with the filters appended so far. *)
Fixpoint update_filters_loop (w : AudioWorker) (bands : list Z)
  : AudioWorker * option exn :=
  match bands with
  | [] => (w, None)
  | freq :: rest =>
      match bessel 2 (band_edges (fs w) freq) (IZR (fs w)) with
      | inl e => (w, Some e)
      | inr sos =>
          update_filters_loop
            (set_sos_filters w (sos_filters w ++ [sos])) rest
      end
  end.

(** [AudioWorker._update_filters]. *)
Definition _update_filters (w : AudioWorker) : AudioWorker * option exn :=
  update_filters_loop (set_sos_filters w []) BANDS.

(** [AudioWorker.load_file(path)]. *)
Definition load_file (w : AudioWorker) (path : string)
  : AudioWorker * option exn :=
  match sf_read path with
  | inl e => (w, Some e)
  | inr (d, rate) =>
      let w := set_data w d rate in
      let w := set_current_frame w 0 in
      _update_filters w
  end.

End Loading.

(** ** Visualizer *)

Record Visualizer : Type := mkVisualizer { spectrum : list R }.

(** [Visualizer.__init__]: [np.zeros(60)]. *)
Definition Visualizer_init : Visualizer := mkVisualizer (repeat 0 60).

(** [Visualizer.update_spectrum(data)], the slot of [spectrum_ready]. *)
Definition update_spectrum (v : Visualizer) (data : list R) : Visualizer :=
  let samples := 60%nat in
  if (samples <? length data)%nat then
    let indices := Np.linspace_int (length data - 1) samples in
    mkVisualizer (Np.take data indices)
  else v.

(** ** EqualizerApp: the control surface *)

Record EqualizerApp : Type := mkEqualizerApp
  { worker : AudioWorker;
    band_sliders : list Z }.

(** [EqualizerApp.__init__] with [init_ui]: ten band sliders at 0. *)
Definition EqualizerApp_init : EqualizerApp :=
  mkEqualizerApp AudioWorker_init (repeat 0%Z (length BANDS)).

(** [l[i] = v] for an index in range. *)
Fixpoint list_set {A : Type} (l : list A) (i : nat) (v : A) : list A :=
  match l, i with
  | [], _ => []
  | _ :: l', O => v :: l'
  | x :: l', S i' => x :: list_set l' i' v
  end.

(** [update_band(index, val)]: [self.worker.gains[index] = val]. *)
Definition update_band (app : EqualizerApp) (index : nat) (val : Z)
  : EqualizerApp :=
  mkEqualizerApp
    (set_gains (worker app) (list_set (gains (worker app)) index (IZR val)))
    (band_sliders app).

(** [band_sliders[i].setValue(v)] for a slider of range [-15, 15]: Qt bounds
    the value to the range and, when it differs from the current one, stores
    it and fires [valueChanged], which is connected to [update_band(i, _)]. *)
Definition slider_setValue (app : EqualizerApp) (i : nat) (v : Z)
  : EqualizerApp :=
  let v' := Z.max (-15) (Z.min 15 v) in
  if Z.eqb (nth i (band_sliders app) 0%Z) v' then app
  else
    update_band
      (mkEqualizerApp (worker app) (list_set (band_sliders app) i v')) i v'.

(** One turn of the loop of [apply_preset]. *)
Definition preset_step (app : EqualizerApp) (igain : nat * Z) : EqualizerApp :=
  let (i, gain) := igain in
  let app := slider_setValue app i gain in
  mkEqualizerApp
    (set_gains (worker app) (list_set (gains (worker app)) i (IZR gain)))
    (band_sliders app).

(** [EqualizerApp.apply_preset(name)]. *)
Definition apply_preset (app : EqualizerApp) (name : string) : EqualizerApp :=
  match dict_get PRESETS name with
  | Some preset_gains => fold_left preset_step (enumerate preset_gains) app
  | None => app
  end.

(** [EqualizerApp.toggle_play]. *)
Definition toggle_play (app : EqualizerApp) : EqualizerApp :=
  match data (worker app) with
  | None => app
  | Some _ =>
      mkEqualizerApp
        (set_is_playing (worker app) (negb (is_playing (worker app))))
        (band_sliders app)
  end.

(** ** Reference definitions that follow the specification's wording *)



(** The block that [callback] reads at the current position, before the
    pre-amplifier. *)
Definition next_chunk (w : AudioWorker) (d : Np.block) (frames : nat)
  : Np.block :=
  Np.slice d (current_frame w) (current_frame w + frames).

(** The pre-amplified dry block: [chunk] after [chunk *= self.preamp]. *)
Definition dry_chunk (w : AudioWorker) (d : Np.block) (frames : nat)
  : Np.block :=
  Np.scale (next_chunk w d frames) (preamp w).

(** The accumulator of [callback] after the master volume, before clipping. *)
Definition pre_clip (w : AudioWorker) (d : Np.block) (frames : nat)
  : Np.block :=
  Np.scale (band_loop w (dry_chunk w d frames)) (master_vol w).

(** Every row of an array of shape (frames, channels) has [c] entries. *)
Definition rect (c : nat) (a : Np.block) : Prop :=
  Forall (fun fr : Np.frame => length fr = c) a.

(** Every sample of a block lies in [[-1, 1]]. *)
Definition within_unit (a : Np.block) : Prop :=
  Forall (Forall (fun x => Rabs x <= 1)) a.

(** The delays a band filter starts from when [callback] filters [chunk]:
    [sosfilt(sos, chunk, axis=0)] is called without [zi], so they are the
    delays of a filter at rest. *)
Definition history_at_start (sos : Sp.sos) (chunk : Np.block)
  : list (list Sp.delay) :=
  Sp.zi_rest sos (Sp.channels chunk).

(** The delays the filter is left with once [chunk] has gone through it. *)
Definition history_at_end (sos : Sp.sos) (chunk : Np.block)
  : list (list Sp.delay) :=
  snd (Sp.sosfilt_zi sos (history_at_start sos chunk) chunk).

(** Two workers agree on every control the band loop reads and on the filter
    bank. *)
Definition same_controls (w1 w2 : AudioWorker) : Prop :=
  gains w1 = gains w2 /\ preamp w1 = preamp w2 /\
  master_vol w1 = master_vol w2 /\ bass_boost w1 = bass_boost w2 /\
  treble_boost w1 = treble_boost w2 /\
  is_bass_booster_active w1 = is_bass_booster_active w2 /\
  sos_filters w1 = sos_filters w2.

(** Whether the pass band of centre [freq] at sample rate [rate] passes the
    checks of [bessel]. *)
Definition band_ok (rate freq : Z) : bool :=
  Sp.bessel_args_ok (fst (band_edges rate freq)) (snd (band_edges rate freq))
                    (IZR rate).

(** The leading bands, in order, up to the first one [bessel] refuses. *)
Fixpoint valid_prefix (rate : Z) (bands : list Z) : list Z :=
  match bands with
  | [] => []
  | freq :: rest =>
      if band_ok rate freq then freq :: valid_prefix rate rest else []
  end.

(** The worker after [self.gains[i] = g], every other control as before. *)
Definition with_band_gain (w : AudioWorker) (i : nat) (g : R) : AudioWorker :=
  set_gains w (list_set (gains w) i g).

(** What band [i] adds to one sample of the accumulator, [filtered] being the
    sample of the band's filtered block: [filtered * linear_gain]. *)
Definition band_added (w : AudioWorker) (i : nat) (filtered : R) : R :=
  filtered * linear_gain (total_gain w i).

(** ** The remaining handlers of the control surface *)

Definition set_preamp (w : AudioWorker) (p : R) : AudioWorker :=
  mkAudioWorker (data w) (fs w) (current_frame w) (is_playing w) (gains w)
    p (master_vol w) (bass_boost w) (treble_boost w)
    (is_bass_booster_active w) (sos_filters w).


Definition set_bass_boost (w : AudioWorker) (b : R) : AudioWorker :=
  mkAudioWorker (data w) (fs w) (current_frame w) (is_playing w) (gains w)
    (preamp w) (master_vol w) b (treble_boost w)
    (is_bass_booster_active w) (sos_filters w).

Definition set_treble_boost (w : AudioWorker) (t : R) : AudioWorker :=
  mkAudioWorker (data w) (fs w) (current_frame w) (is_playing w) (gains w)
    (preamp w) (master_vol w) (bass_boost w) t
    (is_bass_booster_active w) (sos_filters w).

Definition set_is_bass_booster_active (w : AudioWorker) (b : bool)
  : AudioWorker :=
  mkAudioWorker (data w) (fs w) (current_frame w) (is_playing w) (gains w)
    (preamp w) (master_vol w) (bass_boost w) (treble_boost w)
    b (sos_filters w).

(** [update_preamp(val)]: [self.worker.preamp = val / 50.0]. *)
Definition update_preamp (app : EqualizerApp) (val : Z) : EqualizerApp :=
  mkEqualizerApp (set_preamp (worker app) (IZR val / 50.0)) (band_sliders app).


(** The slot of the bass slider: [setattr(self.worker, 'bass_boost', v)]. *)
Definition update_bass (app : EqualizerApp) (v : Z) : EqualizerApp :=
  mkEqualizerApp (set_bass_boost (worker app) (IZR v)) (band_sliders app).

(** The slot of the treble slider:
    [setattr(self.worker, 'treble_boost', v)]. *)
Definition update_treble (app : EqualizerApp) (v : Z) : EqualizerApp :=
  mkEqualizerApp (set_treble_boost (worker app) (IZR v)) (band_sliders app).

(** [toggle_bass_booster(state)]:
    [self.worker.is_bass_booster_active = (state == 2)]. *)
Definition toggle_bass_booster (app : EqualizerApp) (state : Z)
  : EqualizerApp :=
  mkEqualizerApp (set_is_bass_booster_active (worker app) (Z.eqb state 2))
                 (band_sliders app).

(** [closeEvent]: [self.worker.is_playing = False]; stopping and closing the
    device stream is outside the model. *)
Definition closeEvent (app : EqualizerApp) : EqualizerApp :=
  mkEqualizerApp (set_is_playing (worker app) false) (band_sliders app).

(** The bar height computed in [Visualizer.paintEvent] for a widget of
    height [h] and one snapshot value [val]:
    [min(h - 20, np.log10(val + 1) * h * 0.6)]. *)
Definition log10 (x : R) : R := ln x / ln 10.

Definition bar_h (h val : R) : R :=
  Rmin (h - 20) (log10 (val + 1) * h * 0.6).

(** ** Predicates used in the properties of the handlers *)

(** The band sliders and the band gains of the worker show the same
    values. *)
Definition synced (app : EqualizerApp) : Prop :=
  gains (worker app) = map IZR (band_sliders app).

(** A value inside the range [-15 .. 15] of a band slider. *)
Definition in_slider_range (v : Z) : Prop := (-15 <= v <= 15)%Z.

(** Every sample of a block is zero. *)
Definition all_zero (a : Np.block) : Prop :=
  Forall (Forall (fun x => x = 0)) a.

(** ** Concrete states used in the examples *)

(** A one-section filter with [y[n] = x[n] + x[n-1]]. *)
Definition sum2_sos : Sp.sos := [Sp.Biquad 1 1 0 1 0 0].

(** A worker as [__init__] leaves it (flat controls, pre-amp 1.0, master
    volume 0.8), then given a two-frame stereo buffer and set playing. *)
Definition w_flat : AudioWorker :=
  set_is_playing
    (set_data AudioWorker_init [[0.5; -0.25]; [2; 0]] 44100) true.

(** A playing worker with ten filters, the Rock gains, a bass boost of 3 and
    the booster on. *)
Definition w_rock : AudioWorker :=
  mkAudioWorker (Some [[0.5; -0.25]; [2; 0]]) 44100 0 true
    (map IZR [5; 4; 3; 0; -1; -1; 0; 3; 4; 5]%Z) 1.0 0.8 3 0 true
    (repeat sum2_sos 10).

(** A playing worker two frames into a three-frame stereo buffer: the next
    block of two frames reaches past the end. *)
Definition w_tail : AudioWorker :=
  set_current_frame
    (set_is_playing
       (set_data AudioWorker_init [[0.1; 0.1]; [0.2; 0.2]; [0.3; 0.3]] 44100)
       true) 2.

(** A device buffer of two stereo frames still holding earlier samples. *)
Definition stale_outdata : Np.block := [[0.5; 0.5]; [0.5; 0.5]].

(** A playing worker with every control at its top: all bands at +15 dB,
    bass and treble boost 15, booster on, pre-amp 2, master volume 1. *)
Definition w_loud : AudioWorker :=
  mkAudioWorker (Some [[1; -1]; [1; 1]]) 44100 0 true
    (repeat 15 10) 2 1 15 15 true (repeat sum2_sos 10).

(** A playing worker at the start of a two-frame stereo buffer, band 0 at
    +20 dB (a linear gain of 9), every other control flat, pre-amp and master
    volume 1. *)
Definition w_echo : AudioWorker :=
  mkAudioWorker (Some [[0.01; 0.01]; [0; 0]]) 44100 0 true
    (20 :: repeat 0 9) 1 1 0 0 false (repeat sum2_sos 10).

(** The same controls, one frame into another buffer whose next frame is the
    first frame of [w_echo]. *)
Definition w_echo_later : AudioWorker :=
  mkAudioWorker (Some [[0.5; 0.5]; [0.01; 0.01]]) 44100 1 true
    (20 :: repeat 0 9) 1 1 0 0 false (repeat sum2_sos 10).

(** A stand-in for the Bessel coefficient computation; no result below
    depends on the coefficients. *)
Definition any_coeffs : nat -> R * R -> R -> Sp.sos :=
  fun _ _ _ => sum2_sos.

(** A decoder that delivers an empty buffer at 44100 Hz. *)
Definition read_empty : string -> exn + (Np.block * Z) :=
  fun _ => inr ([], 44100%Z).

(** A decoder that delivers one stereo frame at 22050 Hz. *)
Definition read_22050 : string -> exn + (Np.block * Z) :=
  fun _ => inr ([[0.5; 0.5]], 22050%Z).

(** A decoder that delivers one stereo frame with sample rate 0. *)
Definition read_rate0 : string -> exn + (Np.block * Z) :=
  fun _ => inr ([[0.5; 0.5]], 0%Z).

(** A worker whose buffer was decoded at 22050 Hz. *)
Definition w_22050 : AudioWorker :=
  set_data AudioWorker_init [[0.5; 0.5]] 22050.

(** A playing worker with flat controls, pre-amp and master volume 1, whose
    single stereo frame lies outside [[-1, 1]]. *)
Definition w_hot : AudioWorker :=
  mkAudioWorker (Some [[2; 2]]) 44100 0 true
    (repeat 0 10) 1 1 0 0 false (repeat sum2_sos 10).

(** A playing worker with the Rock gains at the start of 128 stereo frames. *)
Definition w_long : AudioWorker :=
  mkAudioWorker (Some (repeat [0.5; 0.25] 128)) 44100 0 true
    (map IZR [5; 4; 3; 0; -1; -1; 0; 3; 4; 5]%Z) 1.0 0.8 0 0 false
    (repeat sum2_sos 10).

(** A playing worker whose buffer has three channels per frame. *)
Definition w_surround : AudioWorker :=
  set_is_playing
    (set_data AudioWorker_init [[0.1; 0.2; 0.3]; [0.3; 0.2; 0.1]] 44100) true.

(** A playing worker with the Rock gains whose buffer is mono. *)
Definition w_mono : AudioWorker :=
  mkAudioWorker (Some [[0.5]; [-0.25]]) 44100 0 true
    (map IZR [5; 4; 3; 0; -1; -1; 0; 3; 4; 5]%Z) 1.0 0.8 0 0 false
    (repeat sum2_sos 10).

(** A playing worker at the start of a three-frame stereo buffer. *)
Definition w_three : AudioWorker := set_current_frame w_tail 0.

(** A playing worker with boosted bands whose next frame is silent. *)
Definition w_quiet : AudioWorker :=
  mkAudioWorker (Some [[0; 0]; [0.5; 0.5]]) 44100 0 true
    (map IZR [5; 4; 3; 0; -1; -1; 0; 3; 4; 5]%Z) 1.0 0.8 3 0 true
    (repeat sum2_sos 10).

(** The Rock worker after a rebuild that stopped at the last band: nine
    filters. *)
Definition w_nine : AudioWorker :=
  set_sos_filters w_rock (repeat sum2_sos 9).

(** A decoder that delivers two stereo frames at 48000 Hz. *)
Definition read_48000 : string -> exn + (Np.block * Z) :=
  fun _ => inr ([[0.5; 0.5]; [0.25; 0.25]], 48000%Z).

(** ** Basic facts about the array operations *)

Lemma shape_scale (a : Np.block) (c : R) : Np.shape (Np.scale a c) = Np.shape a.
Proof.
  unfold Np.shape, Np.scale. rewrite map_map.
  apply map_ext. intros fr. apply length_map.
Qed.

Lemma shape_clip (a : Np.block) (lo hi : R) :
  Np.shape (Np.clip a lo hi) = Np.shape a.
Proof.
  unfold Np.shape, Np.clip. rewrite map_map.
  apply map_ext. intros fr. apply length_map.
Qed.

Lemma broadcast_rows_same_shape (src dst : Np.block) :
  Np.shape src = Np.shape dst -> Np.broadcast_rows src dst = Some src.
Proof.
  revert dst. induction src as [|r src IH]; intros [|d dst] Hs;
    simpl in *; try discriminate; trivial.
  injection Hs as Hl Hs.
  unfold Np.broadcast_row. rewrite Hl, Nat.eqb_refl.
  now rewrite (IH _ Hs).
Qed.

Lemma clip_out_same_shape (a out : Np.block) (lo hi : R) :
  Np.shape a = Np.shape out ->
  Np.clip_out a lo hi out = Some (Np.clip a lo hi).
Proof.
  intros Hs. unfold Np.clip_out.
  apply broadcast_rows_same_shape. now rewrite shape_clip.
Qed.


(** ** The play branch of [callback] *)

Lemma callback_play (w : AudioWorker) (outdata : Np.block) (frames : nat)
  (d : Np.block) :
  is_playing w = true -> data w = Some d ->
  (current_frame w + frames <= length d)%nat ->
  callback w outdata frames =
    match Np.clip_out (pre_clip w d frames) (-1) 1 outdata with
    | None => mkCallbackResult w outdata None (Some ValueError)
    | Some outdata' =>
        match spectrum_of (pre_clip w d frames) with
        | inl e => mkCallbackResult w outdata' None (Some e)
        | inr fft_data =>
            mkCallbackResult
              (set_current_frame w (current_frame w + frames)%nat)
              outdata' (Some fft_data) None
        end
    end.
Proof.
  intros Hp Hd Hle. unfold callback. rewrite Hp, Hd.
  destruct (Nat.ltb_spec (length d) (current_frame w + frames)) as [Hlt|_];
    [lia|]. reflexivity.
Qed.

Lemma callback_play_outdata (w : AudioWorker) (outdata : Np.block)
  (frames : nat) (d out' : Np.block) :
  is_playing w = true -> data w = Some d ->
  (current_frame w + frames <= length d)%nat ->
  Np.clip_out (pre_clip w d frames) (-1) 1 outdata = Some out' ->
  cb_outdata (callback w outdata frames) = out'.
Proof.
  intros Hp Hd Hle Hc. rewrite (callback_play w outdata frames d Hp Hd Hle), Hc.
  now destruct (spectrum_of _).
Qed.

(** ** The band loop *)

Lemma total_gain_flat (w : AudioWorker) (i : nat) :
  Forall (fun g => g = 0) (gains w) ->
  bass_boost w = 0 -> treble_boost w = 0 ->
  is_bass_booster_active w = false ->
  total_gain w i = 0.
Proof.
  intros Hg Hb Ht Hk. unfold total_gain. rewrite Hb, Ht, Hk.
  assert (Hn : nth i (gains w) 0 = 0).
  { destruct (Nat.lt_ge_cases i (length (gains w))) as [Hi|Hi].
    - rewrite Forall_forall in Hg. apply Hg. now apply nth_In.
    - now apply nth_overflow. }
  rewrite Hn.
  destruct (i <=? 2)%nat; destruct (7 <=? i)%nat; lra.
Qed.

Lemma band_step_skip (w : AudioWorker) (chunk acc : Np.block) (i : nat)
  (sos : Sp.sos) :
  total_gain w i = 0 -> band_step w chunk acc (i, sos) = acc.
Proof.
  intros H. unfold band_step. now destruct (Req_dec_T (total_gain w i) 0).
Qed.

Lemma fold_left_skip {A B : Type} (f : A -> B -> A) (l : list B) (a : A) :
  (forall acc x, In x l -> f acc x = acc) -> fold_left f l a = a.
Proof.
  revert a. induction l as [|x l IH]; intros a H; simpl; trivial.
  rewrite (H a x (or_introl eq_refl)). apply IH.
  intros acc y Hy. apply H. now right.
Qed.

(** C1 (identity path): while playing with a loaded buffer, with all band
    gains, the bass boost and the treble boost at zero and the booster off,
    no band runs its filter (every turn of the band loop hands the
    accumulator on as it is, whatever the filters are) and the block written
    to the output buffer is [clip(chunk * preamp * master_vol, -1, 1)]. *)
Theorem identity_path (w : AudioWorker) (outdata : Np.block) (frames : nat)
  (d : Np.block) :
  is_playing w = true -> data w = Some d ->
  (current_frame w + frames <= length d)%nat ->
  Np.shape outdata = Np.shape (next_chunk w d frames) ->
  Forall (fun g => g = 0) (gains w) ->
  bass_boost w = 0 -> treble_boost w = 0 ->
  is_bass_booster_active w = false ->
  (forall acc chunk i sos, band_step w chunk acc (i, sos) = acc) /\
  cb_outdata (callback w outdata frames) =
    Np.clip
      (Np.scale (Np.scale (next_chunk w d frames) (preamp w)) (master_vol w))
      (-1) 1.
Proof.
  intros Hp Hd Hle Hs Hg Hb Ht Hk.
  assert (Hskip : forall acc chunk i sos, band_step w chunk acc (i, sos) = acc).
  { intros. apply band_step_skip. now apply total_gain_flat. }
  split; [exact Hskip|].
  apply (callback_play_outdata w outdata frames d); trivial.
  unfold pre_clip, dry_chunk, band_loop.
  rewrite fold_left_skip by (intros acc [i sos] _; apply Hskip).
  apply clip_out_same_shape. now rewrite !shape_scale.
Qed.

Lemma identity_path_witness :
  cb_outdata (callback w_flat [[7; 7]] 1) =
    Np.clip (Np.scale (Np.scale [[0.5; -0.25]] 1.0) 0.8) (-1) 1.
Proof.
  apply (identity_path w_flat [[7; 7]] 1 [[0.5; -0.25]; [2; 0]]).
  - reflexivity.
  - reflexivity.
  - simpl. lia.
  - reflexivity.
  - simpl. repeat constructor.
  - simpl. lra.
  - simpl. lra.
  - reflexivity.
Defined.

(** ** The band loop against the specification's accumulation *)


Lemma fold_left_ext_in {A B : Type} (f g : A -> B -> A) (l : list B) (a : A) :
  (forall acc x, In x l -> f acc x = g acc x) ->
  fold_left f l a = fold_left g l a.
Proof.
  revert a. induction l as [|x l IH]; intros a H; simpl; trivial.
  rewrite (H a x (or_introl eq_refl)). apply IH.
  intros acc y Hy. apply H. now right.
Qed.





(** ** End of the buffer *)

Lemma callback_past_end (w : AudioWorker) (outdata : Np.block) (frames : nat)
  (d : Np.block) :
  is_playing w = true -> data w = Some d ->
  (length d < current_frame w + frames)%nat ->
  callback w outdata frames =
    mkCallbackResult (set_is_playing w false) outdata None None.
Proof.
  intros Hp Hd Hlt. unfold callback. rewrite Hp, Hd.
  destruct (Nat.ltb_spec (length d) (current_frame w + frames)) as [_|Hle];
    [reflexivity | lia].
Qed.

Lemma callback_idle (w : AudioWorker) (outdata : Np.block) (frames : nat) :
  is_playing w = false \/ data w = None ->
  callback w outdata frames = mkCallbackResult w (Np.fill0 outdata) None None.
Proof.
  intros [H|H]; unfold callback; rewrite H; trivial.
  now destruct (is_playing w).
Qed.

(** C3 (truncation policy), the code at a block that reaches past the end of
    the buffer: two frames into a three-frame buffer, a call for two frames
    stops playback and emits no frame of the tail, but it returns without
    writing the device buffer, which keeps the samples it arrived with; the
    idle branch of the same function does write zeros there. *)
Theorem tail_block_not_silenced :
  is_playing (cb_worker (callback w_tail stale_outdata 2)) = false /\
  current_frame (cb_worker (callback w_tail stale_outdata 2)) = 2%nat /\
  cb_outdata (callback w_tail stale_outdata 2) = stale_outdata /\
  cb_outdata (callback w_tail stale_outdata 2) <> Np.fill0 stale_outdata /\
  cb_outdata (callback (set_is_playing w_tail false) stale_outdata 2)
    = Np.fill0 stale_outdata.
Proof.
  rewrite (callback_past_end w_tail stale_outdata 2
             [[0.1; 0.1]; [0.2; 0.2]; [0.3; 0.3]])
    by (try reflexivity; simpl; lia).
  rewrite (callback_idle (set_is_playing w_tail false)) by (now left).
  simpl. repeat split; trivial.
  unfold stale_outdata, Np.fill0. simpl. intros H.
  injection H as H _. lra.
Qed.

(** ** Shapes: filtering and accumulating keep the shape of the block *)

Lemma zip_with_length {A B C : Type} (f : A -> B -> C) (l : list A)
  (m : list B) :
  length l = length m -> length (Np.zip_with f l m) = length l.
Proof.
  revert m. induction l as [|x l IH]; intros [|y m] H; simpl in *;
    try discriminate; trivial.
  f_equal. apply IH. now injection H.
Qed.

Lemma shape_add (a b : Np.block) :
  Np.shape b = Np.shape a -> Np.shape (Np.add a b) = Np.shape a.
Proof.
  revert b. induction a as [|r a IH]; intros [|q b] H; simpl in *;
    try discriminate; trivial.
  injection H as Hl Hs. f_equal.
  - now apply zip_with_length.
  - now apply IH.
Qed.

Lemma frame_step_length (f : Sp.sos) (zi : list (list Sp.delay))
  (fr : Np.frame) :
  length zi = length fr ->
  length (fst (Sp.frame_step f zi fr)) = length fr /\
  length (snd (Sp.frame_step f zi fr)) = length fr.
Proof.
  revert zi. induction fr as [|x fr IH]; intros [|zs zi] H; simpl in *;
    try discriminate; auto.
  destruct (Sp.cascade_step f zs x) as [y zs'].
  specialize (IH zi ltac:(now injection H)).
  destruct (Sp.frame_step f zi fr) as [ys zi'']. simpl in *.
  split; f_equal; apply IH.
Qed.

Lemma sosfilt_zi_shape (f : Sp.sos) (c : nat) (x : Np.block) :
  rect c x ->
  forall zi, length zi = c ->
  Np.shape (fst (Sp.sosfilt_zi f zi x)) = Np.shape x.
Proof.
  induction 1 as [|fr x Hfr _ IH]; intros zi Hz; simpl; trivial.
  destruct (frame_step_length f zi fr ltac:(congruence)) as [Hy Hzi'].
  destruct (Sp.frame_step f zi fr) as [y zi']. simpl in *.
  specialize (IH zi' ltac:(congruence)).
  destruct (Sp.sosfilt_zi f zi' x) as [ys zf]. simpl in *.
  now rewrite Hy, IH.
Qed.

Lemma sosfilt_shape (f : Sp.sos) (c : nat) (x : Np.block) :
  rect c x -> Np.shape (Sp.sosfilt f x) = Np.shape x.
Proof.
  intros Hr. unfold Sp.sosfilt.
  destruct x as [|fr x]; trivial.
  apply (sosfilt_zi_shape f c); trivial.
  unfold Sp.zi_rest. rewrite repeat_length. simpl.
  now inversion Hr.
Qed.

Lemma band_step_shape (w : AudioWorker) (c : nat) (chunk acc : Np.block)
  (isos : nat * Sp.sos) :
  rect c chunk -> Np.shape acc = Np.shape chunk ->
  Np.shape (band_step w chunk acc isos) = Np.shape chunk.
Proof.
  intros Hr Ha. destruct isos as [i sos]. unfold band_step.
  destruct (Req_dec_T (total_gain w i) 0); trivial.
  rewrite shape_add; trivial.
  now rewrite shape_scale, (sosfilt_shape sos c), Ha.
Qed.

Lemma band_loop_shape (w : AudioWorker) (c : nat) (chunk : Np.block) :
  rect c chunk -> Np.shape (band_loop w chunk) = Np.shape chunk.
Proof.
  intros Hr. unfold band_loop.
  assert (H : forall l acc, Np.shape acc = Np.shape chunk ->
                Np.shape (fold_left (band_step w chunk) l acc)
                = Np.shape chunk).
  { induction l as [|x l IH]; intros acc Ha; simpl; trivial.
    apply IH. now apply (band_step_shape w c). }
  now apply H.
Qed.

Lemma rect_scale (c : nat) (a : Np.block) (k : R) :
  rect c a -> rect c (Np.scale a k).
Proof.
  unfold rect, Np.scale. intros H. apply Forall_map.
  eapply Forall_impl; [|exact H]. intros fr Hfr. simpl.
  now rewrite length_map.
Qed.

Lemma Forall_firstn {A : Type} (P : A -> Prop) (n : nat) (l : list A) :
  Forall P l -> Forall P (firstn n l).
Proof.
  revert l. induction n as [|n IH]; intros l H; simpl; [constructor|].
  destruct H; constructor; auto.
Qed.

Lemma Forall_skipn {A : Type} (P : A -> Prop) (n : nat) (l : list A) :
  Forall P l -> Forall P (skipn n l).
Proof.
  revert l. induction n as [|n IH]; intros l H; simpl; trivial.
  destruct H; [constructor | auto].
Qed.

Lemma rect_slice (c : nat) (a : Np.block) (lo hi : nat) :
  rect c a -> rect c (Np.slice a lo hi).
Proof.
  unfold rect, Np.slice. intros H.
  now apply Forall_firstn, Forall_skipn.
Qed.

Lemma rect_shape (c : nat) (a : Np.block) :
  rect c a -> Np.shape a = repeat c (length a).
Proof.
  induction 1 as [|fr a Hfr _ IH]; simpl; trivial.
  now rewrite Hfr, IH.
Qed.

Lemma slice_length {A : Type} (a : list A) (lo n : nat) :
  (lo + n <= length a)%nat -> length (Np.slice a lo (lo + n)) = n.
Proof.
  intros H. unfold Np.slice.
  rewrite length_firstn, length_skipn. lia.
Qed.

Lemma pre_clip_shape (w : AudioWorker) (c : nat) (d : Np.block)
  (frames : nat) :
  rect c d -> (current_frame w + frames <= length d)%nat ->
  Np.shape (pre_clip w d frames) = repeat c frames.
Proof.
  intros Hr Hle. unfold pre_clip, dry_chunk.
  assert (Hc : rect c (next_chunk w d frames))
    by (now apply rect_slice).
  rewrite shape_scale, (band_loop_shape w c) by (now apply rect_scale).
  rewrite shape_scale, (rect_shape c) by exact Hc.
  unfold next_chunk. now rewrite slice_length.
Qed.

(** ** A block inside the buffer *)

Lemma hanning_length (M : nat) : length (Np.hanning M) = M.
Proof.
  destruct M as [|[|M]]; trivial.
  unfold Np.hanning. now rewrite length_map, length_seq.
Qed.

Lemma shape_length (a : Np.block) : length (Np.shape a) = length a.
Proof. apply length_map. Qed.

Lemma spectrum_of_nonempty (a : Np.block) :
  (0 < length a)%nat -> exists fft_data, spectrum_of a = inr fft_data.
Proof.
  intros Hlen. unfold spectrum_of.
  assert (Hl : length (Np.mul1 (Np.mean_axis1 a)
                         (Np.hanning (length (Np.mean_axis1 a))))
               = length a).
  { unfold Np.mul1. rewrite zip_with_length.
    - apply length_map.
    - now rewrite hanning_length. }
  destruct (Np.mul1 _ _) as [|x l]; [simpl in Hl; lia|].
  eexists. reflexivity.
Qed.

Lemma callback_normal_block (w : AudioWorker) (outdata : Np.block)
  (frames c : nat) (d : Np.block) :
  is_playing w = true -> data w = Some d -> rect c d ->
  (current_frame w + frames <= length d)%nat -> (0 < frames)%nat ->
  Np.shape outdata = repeat c frames ->
  exists fft_data,
    spectrum_of (pre_clip w d frames) = inr fft_data /\
    callback w outdata frames =
      mkCallbackResult (set_current_frame w (current_frame w + frames)%nat)
        (Np.clip (pre_clip w d frames) (-1) 1) (Some fft_data) None.
Proof.
  intros Hp Hd Hr Hle Hpos Hs.
  pose proof (pre_clip_shape w c d frames Hr Hle) as Hshape.
  destruct (spectrum_of_nonempty (pre_clip w d frames)) as [fft Hfft].
  { rewrite <- shape_length, Hshape, repeat_length. exact Hpos. }
  exists fft. split; trivial.
  rewrite (callback_play w outdata frames d Hp Hd Hle).
  rewrite clip_out_same_shape by congruence.
  now rewrite Hfft.
Qed.

(** ** Clipping *)






(** ** Playing a buffer to its end *)

Section Truncation.

Variables (w : AudioWorker) (d outdata : Np.block) (frames c : nat).

Hypothesis Hplaying : is_playing w = true.
Hypothesis Hdata : data w = Some d.
Hypothesis Hstart : current_frame w = 0%nat.
Hypothesis Hrect : rect c d.
Hypothesis Hframes : (0 < frames)%nat.
Hypothesis Hshape : Np.shape outdata = repeat c frames.

(** While whole blocks remain, every call advances the position by one
    block and playback goes on. *)
Lemma full_blocks_advance (k : nat) :
  (k <= length d / frames)%nat ->
  fst (run_callbacks k w outdata frames) =
  set_current_frame w (k * frames).
Proof.
  induction k as [|k IH]; intros Hk.
  - simpl. rewrite <- Hstart. now destruct w.
  - cbn [run_callbacks].
    destruct (run_callbacks k w outdata frames) as [w' outs].
    cbn [fst] in *. rewrite IH by lia. clear IH.
    assert (Hle : (S k * frames <= length d)%nat).
    { pose proof (Nat.Div0.mul_div_le (length d) frames) as Hq.
      assert (S k * frames <= frames * (length d / frames))%nat by nia.
      lia. }
    destruct (callback_normal_block (set_current_frame w (k * frames))
                outdata frames c d Hplaying Hdata Hrect
                ltac:(simpl; lia) Hframes Hshape) as [fft [_ Hcb]].
    rewrite Hcb. cbn [cb_worker current_frame set_current_frame].
    unfold set_current_frame. cbn. f_equal. lia.
Qed.

(** The call after the last whole block stops playback; the position stays
    at the largest multiple of the block size within the buffer and the
    device buffer is handed back as it came. *)
Lemma stops_at_last_full_block :
  let q := (length d / frames)%nat in
  fst (run_callbacks (S q) w outdata frames) =
    set_is_playing (set_current_frame w (q * frames)) false /\
  hd [] (snd (run_callbacks (S q) w outdata frames)) = outdata.
Proof.
  cbv zeta. cbn [run_callbacks].
  pose proof (full_blocks_advance (length d / frames) (le_n _)) as Hw.
  destruct (run_callbacks (length d / frames) w outdata frames) as [w' outs].
  cbn [fst] in Hw. subst w'.
  rewrite (callback_past_end
             (set_current_frame w (length d / frames * frames))
             outdata frames d Hplaying Hdata).
  - split; reflexivity.
  - cbn [current_frame set_current_frame].
    pose proof (Nat.mul_succ_div_gt (length d) frames ltac:(lia)). nia.
Qed.

(** Every later call finds the worker idle and changes nothing in it: the
    frames from [frames * (length d / frames)] on are never read. *)
Lemma stays_stopped (m : nat) :
  let q := (length d / frames)%nat in
  fst (run_callbacks (S q + m) w outdata frames) =
  set_is_playing (set_current_frame w (q * frames)) false.
Proof.
  cbv zeta. induction m as [|m IH].
  - rewrite Nat.add_0_r. apply stops_at_last_full_block.
  - rewrite Nat.add_succ_r. cbn [run_callbacks].
    change (S (length d / frames + m)) with (S (length d / frames) + m)%nat.
    destruct (run_callbacks (S (length d / frames) + m) w outdata frames)
      as [w' outs].
    cbn [fst] in IH. subst w'.
    now rewrite callback_idle by (now left).
Qed.

End Truncation.

(** ** Filter history across blocks *)

Lemma band_step_run (w : AudioWorker) (chunk acc : Np.block) (i : nat)
  (sos : Sp.sos) :
  total_gain w i <> 0 ->
  band_step w chunk acc (i, sos) =
  Np.add acc (Np.scale (Sp.sosfilt sos chunk) (linear_gain (total_gain w i))).
Proof.
  intros H. unfold band_step.
  now destruct (Req_dec_T (total_gain w i) 0).
Qed.

Lemma linear_gain_20 : linear_gain 20 = 9.
Proof.
  unfold linear_gain. replace (20 / 20) with 1 by lra.
  rewrite Rpower_1 by lra. lra.
Qed.

Lemma band_loop_echo_controls (w : AudioWorker) (chunk : Np.block) :
  same_controls w_echo w ->
  band_loop w chunk = Np.add chunk (Np.scale (Sp.sosfilt sum2_sos chunk) 9).
Proof.
  intros (Hg & _ & _ & Hb & Ht & Hk & Hf).
  assert (Htg : forall i, total_gain w i = total_gain w_echo i).
  { intros i. unfold total_gain. now rewrite <- Hg, <- Hb, <- Ht, <- Hk. }
  unfold band_loop, enumerate. rewrite <- Hf.
  cbn -[band_step total_gain].
  rewrite (band_step_run w chunk chunk 0)
    by (rewrite Htg; unfold total_gain; simpl; lra).
  replace (total_gain w 0) with 20
    by (rewrite Htg; unfold total_gain; simpl; lra).
  rewrite linear_gain_20.
  rewrite !band_step_skip by (rewrite Htg; unfold total_gain; simpl; lra).
  reflexivity.
Qed.

Lemma clip1_inside (x : R) : -1 <= x <= 1 -> Np.clip1 (-1) 1 x = x.
Proof.
  intros H. unfold Np.clip1, Rmin, Rmax.
  destruct (Rle_dec x (-1)); destruct (Rle_dec _ 1); lra.
Qed.

Ltac clip_values := rewrite clip1_inside by lra; lra.

(** C5, a counterexample to the claim as stated: band 0 at +20 dB, two
    stereo frames [(0.01, 0.01)] and [(0, 0)] played as two blocks of one
    frame.  The first block leaves the filter of band 0 with a non-zero
    delay, yet the second block starts from the rest delays; its output is
    silence, whereas the same two frames played as one block give 0.09 in the
    second frame. *)
Lemma history_not_carried :
  let d := [[0.01; 0.01]; [0; 0]] in
  let w1 := set_current_frame w_echo 1 in
  cb_worker (callback w_echo [[0; 0]] 1) = w1 /\
  history_at_start sum2_sos (dry_chunk w1 d 1)
    <> history_at_end sum2_sos (dry_chunk w_echo d 1) /\
  cb_outdata (callback w1 [[0; 0]] 1) = [[0; 0]] /\
  cb_outdata (callback w_echo [[0; 0]; [0; 0]] 2)
    = [[0.1; 0.1]; [0.09; 0.09]].
Proof.
  cbv zeta. repeat split.
  - destruct (callback_normal_block w_echo [[0; 0]] 1 2 [[0.01; 0.01]; [0; 0]])
      as [fft [_ Hcb]]; try reflexivity; try (repeat constructor).
    now rewrite Hcb.
  - cbn. intros H. injection H as H _. lra.
  - apply (callback_play_outdata _ _ 1 [[0.01; 0.01]; [0; 0]]);
      try reflexivity.
    unfold pre_clip.
    rewrite band_loop_echo_controls by (repeat split).
    cbn. repeat f_equal; clip_values.
  - apply (callback_play_outdata _ _ 2 [[0.01; 0.01]; [0; 0]]);
      try reflexivity.
    unfold pre_clip.
    rewrite band_loop_echo_controls by (repeat split).
    cbn. repeat f_equal; clip_values.
Qed.

Lemma callback_keeps_filters (w : AudioWorker) (outdata : Np.block)
  (frames : nat) :
  sos_filters (cb_worker (callback w outdata frames)) = sos_filters w.
Proof.
  unfold callback.
  destruct (is_playing w); trivial.
  destruct (data w) as [d|]; trivial.
  destruct (length d <? current_frame w + frames)%nat; trivial.
  destruct (Np.clip_out _ _ _ _); trivial.
  now destruct (spectrum_of _).
Qed.

Lemma band_loop_same_controls (w1 w2 : AudioWorker) (chunk : Np.block) :
  same_controls w1 w2 -> band_loop w1 chunk = band_loop w2 chunk.
Proof.
  intros (Hg & _ & _ & Hb & Ht & Hk & Hf).
  unfold band_loop. rewrite Hf.
  apply fold_left_ext_in. intros acc [i sos] _.
  unfold band_step, total_gain. now rewrite Hg, Hb, Ht, Hk.
Qed.

Lemma history_at_start_rest (sos : Sp.sos) (chunk : Np.block) :
  Forall (Forall (fun z : Sp.delay => z = (0, 0)))
         (history_at_start sos chunk).
Proof.
  unfold history_at_start, Sp.zi_rest.
  apply Forall_forall. intros zs Hzs. apply repeat_spec in Hzs. subst zs.
  apply Forall_forall. intros z Hz. now apply repeat_spec in Hz.
Qed.

(** C5 as amended: the band filters keep no history between blocks.  Every
    block is filtered from the rest delays (all zero), so two workers with
    the same controls and filter bank that read the same frames produce the
    same output block, whatever they played before; and [callback] never
    replaces the filter bank (only [_update_filters] does, on load). *)
Theorem blocks_filtered_from_rest (w1 w2 : AudioWorker)
  (outdata : Np.block) (frames : nat) (d1 d2 : Np.block) :
  is_playing w1 = true -> is_playing w2 = true ->
  data w1 = Some d1 -> data w2 = Some d2 ->
  (current_frame w1 + frames <= length d1)%nat ->
  (current_frame w2 + frames <= length d2)%nat ->
  same_controls w1 w2 ->
  next_chunk w1 d1 frames = next_chunk w2 d2 frames ->
  (forall sos,
      Sp.sosfilt sos (dry_chunk w1 d1 frames) =
      fst (Sp.sosfilt_zi sos (history_at_start sos (dry_chunk w1 d1 frames))
             (dry_chunk w1 d1 frames)) /\
      Forall (Forall (fun z : Sp.delay => z = (0, 0)))
             (history_at_start sos (dry_chunk w1 d1 frames))) /\
  cb_outdata (callback w1 outdata frames)
    = cb_outdata (callback w2 outdata frames) /\
  sos_filters (cb_worker (callback w1 outdata frames)) = sos_filters w1.
Proof.
  intros Hp1 Hp2 Hd1 Hd2 Hle1 Hle2 Hc Hn.
  split; [|split].
  - intros sos. split; [reflexivity | apply history_at_start_rest].
  - rewrite (callback_play w1 outdata frames d1 Hp1 Hd1 Hle1).
    rewrite (callback_play w2 outdata frames d2 Hp2 Hd2 Hle2).
    assert (Hpre : pre_clip w1 d1 frames = pre_clip w2 d2 frames).
    { unfold pre_clip, dry_chunk. rewrite Hn.
      rewrite (band_loop_same_controls w1 w2) by exact Hc.
      destruct Hc as (_ & Hpa & Hm & _). now rewrite Hpa, Hm. }
    rewrite Hpre.
    destruct (Np.clip_out _ _ _ _); trivial.
    now destruct (spectrum_of _).
  - apply callback_keeps_filters.
Qed.

Lemma blocks_filtered_from_rest_witness :
  cb_outdata (callback w_echo [[0; 0]] 1)
    = cb_outdata (callback w_echo_later [[0; 0]] 1).
Proof.
  apply (blocks_filtered_from_rest w_echo w_echo_later [[0; 0]] 1
           [[0.01; 0.01]; [0; 0]] [[0.5; 0.5]; [0.01; 0.01]]);
    try reflexivity; try (simpl; lia).
  repeat split.
Defined.

(** ** Rebuilding the filter bank *)

Lemma bessel_args_ok_true (low high rate : R) :
  0 < rate -> 0 < low -> low < high -> high < rate / 2 ->
  Sp.bessel_args_ok low high rate = true.
Proof.
  intros Hr Hl Hlh Hh. unfold Sp.bessel_args_ok.
  assert (Hi : 0 < / rate) by now apply Rinv_0_lt_compat.
  assert (H1 : 0 < 2 * low / rate) by (unfold Rdiv; nra).
  assert (H2 : 2 * low / rate < 2 * high / rate) by (unfold Rdiv; nra).
  assert (H3 : 2 * high / rate < 1).
  { apply Rmult_lt_reg_r with rate; trivial.
    unfold Rdiv. rewrite Rmult_assoc, Rinv_l by lra. lra. }
  destruct (Rlt_dec 0 (2 * low / rate)); [|lra].
  destruct (Rlt_dec 0 (2 * high / rate)); [|lra].
  destruct (Rlt_dec (2 * low / rate) (2 * high / rate)); [|lra].
  destruct (Rlt_dec (2 * low / rate) 1); [|lra].
  destruct (Rlt_dec (2 * high / rate) 1); [|lra].
  reflexivity.
Qed.

Lemma bessel_args_ok_false (low high rate : R) :
  0 < low -> high <= low \/ rate <= 0 ->
  Sp.bessel_args_ok low high rate = false.
Proof.
  intros Hl H. unfold Sp.bessel_args_ok.
  destruct (Rlt_dec 0 (2 * low / rate)) as [H1|]; trivial.
  destruct (Rlt_dec 0 (2 * high / rate)) as [H2|]; trivial.
  destruct (Rlt_dec (2 * low / rate) (2 * high / rate)) as [H3|]; trivial.
  exfalso.
  assert (Hr : 0 < rate).
  { destruct (Rlt_dec 0 rate) as [|Hn]; trivial. exfalso.
    destruct (Req_dec_T rate 0) as [->|Hne].
    - unfold Rdiv in H1. rewrite Rinv_0 in H1. lra.
    - assert (Hi : / rate < 0) by (apply Rinv_lt_0_compat; lra).
      unfold Rdiv in H1. nra. }
  destruct H as [H|H]; [|lra].
  assert (Hi : 0 < / rate) by now apply Rinv_0_lt_compat.
  unfold Rdiv in H3. nra.
Qed.

Lemma band_ok_spec (rate freq : Z) :
  (0 < freq)%Z ->
  band_ok rate freq = true <-> IZR freq * 0.707 < IZR rate / 2 - 1.
Proof.
  intros Hf. apply IZR_lt in Hf.
  unfold band_ok, band_edges. cbn [fst snd].
  split.
  - intros Hok.
    destruct (Rlt_dec (IZR freq * 0.707) (IZR rate / 2 - 1)) as [|Hn]; trivial.
    rewrite bessel_args_ok_false in Hok; [discriminate | lra |].
    left. unfold Rmin. destruct (Rle_dec _ _); lra.
  - intros Hlt. apply bessel_args_ok_true; try lra;
      unfold Rmin; destruct (Rle_dec _ _); lra.
Qed.

Lemma band_ok_false_iff (rate freq : Z) :
  (0 < freq)%Z ->
  band_ok rate freq = false <->
  snd (band_edges rate freq) <= fst (band_edges rate freq).
Proof.
  intros Hf. pose proof (band_ok_spec rate freq Hf) as Hspec.
  apply IZR_lt in Hf. unfold band_edges in *. cbn [fst snd].
  split.
  - intros Hok.
    destruct (Rlt_dec (IZR freq * 0.707) (IZR rate / 2 - 1)) as [Hlt|Hn].
    + apply Hspec in Hlt. congruence.
    + unfold Rmin. destruct (Rle_dec _ _); lra.
  - intros Hle. destruct (band_ok rate freq); trivial.
    pose proof (proj1 Hspec eq_refl) as Hlt. revert Hle. unfold Rmin.
    destruct (Rle_dec _ _); lra.
Qed.

Lemma bands_positive : Forall (fun freq => (0 < freq)%Z) BANDS.
Proof. unfold BANDS. repeat constructor. Qed.

Lemma all_bands_ok (rate : Z) :
  forallb (band_ok rate) BANDS = (22626 <? rate)%Z.
Proof.
  destruct (Z.ltb_spec 22626 rate) as [Hlt|Hle].
  - apply forallb_forall. intros freq Hin.
    apply band_ok_spec.
    + pose proof bands_positive as Hp. rewrite Forall_forall in Hp. auto.
    + apply IZR_lt in Hlt.
      unfold BANDS in Hin. simpl in Hin.
      repeat (destruct Hin as [<-|Hin]; [lra|]). contradiction.
  - destruct (forallb (band_ok rate) BANDS) eqn:Hall; trivial.
    rewrite forallb_forall in Hall.
    assert (Hok : band_ok rate 16000 = true).
    { apply Hall. unfold BANDS. simpl. tauto. }
    apply band_ok_spec in Hok; [|lia].
    apply IZR_le in Hle. lra.
Qed.

Lemma set_sos_filters_same (w : AudioWorker) :
  set_sos_filters w (sos_filters w) = w.
Proof. now destruct w. Qed.

Section Rebuild.

Variable bessel_coeffs : nat -> R * R -> R -> Sp.sos.

Lemma update_filters_loop_spec (bands : list Z) (w : AudioWorker) :
  update_filters_loop bessel_coeffs w bands =
  (set_sos_filters w
     (sos_filters w ++
      map (fun freq => bessel_coeffs 2%nat (band_edges (fs w) freq) (IZR (fs w)))
          (valid_prefix (fs w) bands)),
   if forallb (band_ok (fs w)) bands then None else Some ValueError).
Proof.
  revert w. induction bands as [|freq rest IH]; intros w; simpl.
  - now rewrite app_nil_r, set_sos_filters_same.
  - unfold bessel. fold (band_ok (fs w) freq).
    destruct (band_ok (fs w) freq); simpl.
    + rewrite IH. simpl. now rewrite <- app_assoc.
    + now rewrite app_nil_r, set_sos_filters_same.
Qed.

Lemma update_filters_spec (w : AudioWorker) :
  _update_filters bessel_coeffs w =
  (set_sos_filters w
     (map (fun freq => bessel_coeffs 2%nat (band_edges (fs w) freq) (IZR (fs w)))
          (valid_prefix (fs w) BANDS)),
   if (22626 <? fs w)%Z then None else Some ValueError).
Proof.
  unfold _update_filters. rewrite update_filters_loop_spec.
  cbn [fs sos_filters set_sos_filters app]. now rewrite all_bands_ok.
Qed.

End Rebuild.

Lemma valid_prefix_short (rate : Z) (bands : list Z) :
  forallb (band_ok rate) bands = false ->
  (length (valid_prefix rate bands) < length bands)%nat.
Proof.
  induction bands as [|freq rest IH]; simpl; [discriminate|].
  destruct (band_ok rate freq); simpl; intros H; [|lia].
  specialize (IH H). lia.
Qed.

Ltac decide_bands :=
  repeat match goal with
    | |- context [band_ok ?r ?f] =>
        first
          [ rewrite (proj2 (band_ok_spec r f ltac:(lia))) by lra
          | rewrite (proj2 (band_ok_false_iff r f ltac:(lia)))
              by (unfold band_edges, Rmin; cbn [fst snd];
                  destruct (Rle_dec _ _); lra) ]
    end.

Lemma valid_prefix_22050 :
  valid_prefix 22050 BANDS =
  [32; 64; 125; 250; 500; 1000; 2000; 4000; 8000]%Z.
Proof.
  unfold BANDS. cbn [valid_prefix]. decide_bands. reflexivity.
Qed.

(** C6, a counterexample to the claim as stated: at 22050 Hz the band at
    16000 Hz has low cutoff 11312 and high cutoff 11024; [_update_filters]
    leaves with the ValueError of [bessel], holding the filters of the nine
    bands before it and no filter for that band. *)
Lemma rebuild_raises_at_22050 :
  snd (band_edges 22050 16000) <= fst (band_edges 22050 16000) /\
  snd (_update_filters any_coeffs w_22050) = Some ValueError /\
  length (sos_filters (fst (_update_filters any_coeffs w_22050))) = 9%nat.
Proof.
  split; [|split].
  - unfold band_edges, Rmin. cbn [fst snd]. destruct (Rle_dec _ _); lra.
  - rewrite update_filters_spec. reflexivity.
  - rewrite update_filters_spec. cbn [fst sos_filters set_sos_filters].
    rewrite length_map. cbn [fs w_22050 set_data].
    now rewrite valid_prefix_22050.
Qed.

(** C6 as amended: [_update_filters] has no fallback for a degenerate band.
    Whenever some band's low cutoff is at or above its high cutoff at the
    worker's sample rate, the rebuild leaves with the ValueError [bessel]
    raises; the filter bank then holds exactly the designed filters of the
    bands before the first refused one (fewer than ten), and neither a
    pass-through filter nor the filters of later bands. *)
Theorem degenerate_band_aborts_rebuild
  (bessel_coeffs : nat -> R * R -> R -> Sp.sos) (w : AudioWorker) :
  (exists freq, In freq BANDS /\
     snd (band_edges (fs w) freq) <= fst (band_edges (fs w) freq)) ->
  snd (_update_filters bessel_coeffs w) = Some ValueError /\
  sos_filters (fst (_update_filters bessel_coeffs w)) =
    map (fun freq => bessel_coeffs 2%nat (band_edges (fs w) freq) (IZR (fs w)))
        (valid_prefix (fs w) BANDS) /\
  (length (sos_filters (fst (_update_filters bessel_coeffs w)))
   < length BANDS)%nat.
Proof.
  intros (freq & Hin & Hdeg).
  assert (Hall : forallb (band_ok (fs w)) BANDS = false).
  { destruct (forallb (band_ok (fs w)) BANDS) eqn:Hall; trivial.
    rewrite forallb_forall in Hall. specialize (Hall freq Hin).
    pose proof bands_positive as Hp. rewrite Forall_forall in Hp.
    apply (band_ok_false_iff (fs w) freq (Hp freq Hin)) in Hdeg.
    congruence. }
  rewrite update_filters_spec. cbn [fst snd sos_filters set_sos_filters].
  rewrite <- all_bands_ok, Hall. repeat split.
  rewrite length_map. now apply valid_prefix_short.
Qed.

Lemma degenerate_band_aborts_rebuild_witness :
  snd (_update_filters any_coeffs w_22050) = Some ValueError.
Proof.
  apply (degenerate_band_aborts_rebuild any_coeffs w_22050).
  exists 16000%Z. split.
  - unfold BANDS. simpl. tauto.
  - unfold band_edges, Rmin. cbn [fst snd fs w_22050 set_data].
    destruct (Rle_dec _ _); lra.
Defined.

(** ** Loading *)

Lemma valid_prefix_all (rate : Z) (bands : list Z) :
  forallb (band_ok rate) bands = true -> valid_prefix rate bands = bands.
Proof.
  induction bands as [|freq rest IH]; simpl; trivial.
  destruct (band_ok rate freq); simpl; [|discriminate].
  intros H. now rewrite IH.
Qed.

(** C7, a counterexample to the claim as stated: a decoder result with no
    frames at 44100 Hz is loaded without any failure; the empty buffer is
    stored, the position is zero and all ten filters are built. *)
Lemma empty_buffer_is_loaded :
  snd (load_file any_coeffs read_empty AudioWorker_init "empty.wav") = None /\
  data (fst (load_file any_coeffs read_empty AudioWorker_init "empty.wav"))
    = Some [] /\
  current_frame
    (fst (load_file any_coeffs read_empty AudioWorker_init "empty.wav"))
    = 0%nat /\
  length (sos_filters
    (fst (load_file any_coeffs read_empty AudioWorker_init "empty.wav")))
    = 10%nat.
Proof.
  unfold load_file, read_empty. rewrite update_filters_spec.
  cbn [fst snd fs data current_frame sos_filters set_sos_filters
       set_current_frame set_data].
  repeat split.
  rewrite length_map, valid_prefix_all; trivial.
  now rewrite all_bands_ok.
Qed.

(** Loading a file decoded at 22050 Hz fails in the rebuild: the buffer,
    the rate and the position are replaced, nine filters are built and the
    ValueError of [bessel] for the 16000 Hz band leaves the call. *)
Lemma load_22050_fails (w : AudioWorker) (path : string) :
  load_file any_coeffs read_22050 w path =
  (set_sos_filters (set_current_frame (set_data w [[0.5; 0.5]] 22050) 0)
     (repeat sum2_sos 9),
   Some ValueError).
Proof.
  unfold load_file, read_22050. rewrite update_filters_spec.
  cbn [fs set_current_frame set_data]. now rewrite valid_prefix_22050.
Qed.

(** C7 as amended: [load_file] checks neither the buffer nor the sample
    rate itself.  Whatever frames the decoder delivers (none included), it
    stores them with their rate and sets the position to zero, then rebuilds
    the filter bank; the call succeeds, with all ten filters built for the
    new rate, exactly when the rate is above 22626 Hz, and otherwise (so for
    every non-positive rate) it leaves with the ValueError of [bessel] and
    the filters of the bands before the first refused one. *)
Theorem load_file_outcome
  (bessel_coeffs : nat -> R * R -> R -> Sp.sos)
  (sf_read : string -> exn + (Np.block * Z))
  (w : AudioWorker) (path : string) (d : Np.block) (rate : Z) :
  sf_read path = inr (d, rate) ->
  load_file bessel_coeffs sf_read w path =
  (set_sos_filters (set_current_frame (set_data w d rate) 0)
     (map (fun freq => bessel_coeffs 2%nat (band_edges rate freq) (IZR rate))
          (if (22626 <? rate)%Z then BANDS else valid_prefix rate BANDS)),
   if (22626 <? rate)%Z then None else Some ValueError).
Proof.
  intros Hread. unfold load_file. rewrite Hread, update_filters_spec.
  cbn [fs set_current_frame set_data].
  destruct (22626 <? rate)%Z eqn:Hr; trivial.
  rewrite valid_prefix_all; trivial. now rewrite all_bands_ok.
Qed.

Lemma load_file_outcome_witness :
  load_file any_coeffs read_rate0 w_flat "zero.wav" =
  (set_sos_filters (set_current_frame (set_data w_flat [[0.5; 0.5]] 0) 0) [],
   Some ValueError).
Proof.
  rewrite (load_file_outcome any_coeffs read_rate0 w_flat "zero.wav"
             [[0.5; 0.5]] 0 eq_refl).
  cbn [Z.ltb Z.compare]. unfold BANDS. cbn [valid_prefix].
  decide_bands. reflexivity.
Defined.

(** ** Monotonicity of a band's contribution in its gain *)

Lemma list_set_length {A : Type} (l : list A) (i : nat) (v : A) :
  length (list_set l i v) = length l.
Proof.
  revert i. induction l as [|x l IH]; intros [|i]; simpl; auto.
Qed.

Lemma list_set_nth_same {A : Type} (l : list A) (i : nat) (v d : A) :
  (i < length l)%nat -> nth i (list_set l i v) d = v.
Proof.
  revert i. induction l as [|x l IH]; intros [|i] H; simpl in *;
    try lia; trivial.
  apply IH. lia.
Qed.

Lemma total_gain_with_band_gain (w : AudioWorker) (i : nat) (g : R) :
  (i < length (gains w))%nat ->
  total_gain (with_band_gain w i g) i
  = g + (total_gain w i - nth i (gains w) 0).
Proof.
  intros Hi. unfold total_gain, with_band_gain.
  cbn [gains set_gains bass_boost treble_boost is_bass_booster_active].
  rewrite list_set_nth_same by exact Hi.
  destruct (i <=? 2)%nat; destruct (is_bass_booster_active w);
    destruct (7 <=? i)%nat; lra.
Qed.

Lemma linear_gain_0 : linear_gain 0 = 0.
Proof.
  unfold linear_gain. replace (0 / 20) with 0 by lra.
  rewrite Rpower_O by lra. lra.
Qed.

Lemma linear_gain_increasing (t1 t2 : R) :
  t1 < t2 -> linear_gain t1 < linear_gain t2.
Proof.
  intros H. unfold linear_gain.
  assert (Rpower 10 (t1 / 20) < Rpower 10 (t2 / 20))
    by (apply Rpower_lt; lra).
  lra.
Qed.

Lemma linear_gain_monotone (t1 t2 : R) :
  t1 <= t2 -> linear_gain t1 <= linear_gain t2.
Proof.
  intros [H| ->]; [left; now apply linear_gain_increasing | right; trivial].
Qed.

(** C9, a counterexample to the claim as stated: with flat controls, raising
    the gain of band 0 from -15 dB to -10 dB makes what the band adds to a
    filtered sample of 1 smaller in magnitude. *)
Lemma cut_contribution_shrinks :
  -15 <= -10 /\
  Rabs (band_added (with_band_gain AudioWorker_init 0 (-10)) 0 1)
  < Rabs (band_added (with_band_gain AudioWorker_init 0 (-15)) 0 1).
Proof.
  split; [lra|].
  unfold band_added.
  rewrite !total_gain_with_band_gain by (simpl; lia).
  replace (total_gain AudioWorker_init 0 - nth 0 (gains AudioWorker_init) 0)
    with 0 by (unfold total_gain; simpl; lra).
  rewrite !Rplus_0_r, !Rmult_1_l.
  pose proof (linear_gain_increasing (-15) (-10) ltac:(lra)) as H1.
  pose proof (linear_gain_increasing (-10) 0 ltac:(lra)) as H2.
  rewrite linear_gain_0 in H2.
  rewrite !Rabs_left by lra. lra.
Qed.

(** C9 as amended: with every other setting and the filtered sample fixed,
    raising one band's gain never lowers the magnitude of what the band adds,
    [filtered * (10^(total/20) - 1)], as long as the band's total gain is at
    least 0 dB before the raise. *)
Theorem gain_monotone_from_0dB (w : AudioWorker) (i : nat) (g1 g2 x : R) :
  (i < length (gains w))%nat ->
  g1 <= g2 ->
  0 <= total_gain (with_band_gain w i g1) i ->
  Rabs (band_added (with_band_gain w i g1) i x)
  <= Rabs (band_added (with_band_gain w i g2) i x).
Proof.
  intros Hi Hg H0. unfold band_added.
  rewrite !total_gain_with_band_gain in * by exact Hi.
  set (rest := total_gain w i - nth i (gains w) 0) in *.
  pose proof (linear_gain_monotone 0 (g1 + rest) H0) as Ha.
  pose proof (linear_gain_monotone (g1 + rest) (g2 + rest) ltac:(lra)) as Hb.
  rewrite linear_gain_0 in Ha.
  rewrite !Rabs_mult.
  rewrite (Rabs_right (linear_gain (g1 + rest))) by lra.
  rewrite (Rabs_right (linear_gain (g2 + rest))) by lra.
  apply Rmult_le_compat_l; [apply Rabs_pos | exact Hb].
Qed.

Lemma gain_monotone_from_0dB_witness :
  Rabs (band_added (with_band_gain w_rock 0 5) 0 0.25)
  <= Rabs (band_added (with_band_gain w_rock 0 15) 0 0.25).
Proof.
  apply (gain_monotone_from_0dB w_rock 0 5 15 0.25).
  - simpl. lia.
  - lra.
  - rewrite total_gain_with_band_gain by (simpl; lia).
    unfold total_gain. simpl. lra.
Defined.

(** Below 0 dB the magnitude moves the other way: raising the gain towards
    0 dB shrinks what the band takes away. *)
Lemma gain_antitone_below_0dB (w : AudioWorker) (i : nat) (g1 g2 x : R) :
  (i < length (gains w))%nat ->
  g1 <= g2 ->
  total_gain (with_band_gain w i g2) i <= 0 ->
  Rabs (band_added (with_band_gain w i g2) i x)
  <= Rabs (band_added (with_band_gain w i g1) i x).
Proof.
  intros Hi Hg H0. unfold band_added.
  rewrite !total_gain_with_band_gain in * by exact Hi.
  set (rest := total_gain w i - nth i (gains w) 0) in *.
  pose proof (linear_gain_monotone (g2 + rest) 0 H0) as Ha.
  pose proof (linear_gain_monotone (g1 + rest) (g2 + rest) ltac:(lra)) as Hb.
  rewrite linear_gain_0 in Ha.
  rewrite !Rabs_mult.
  rewrite (Rabs_left1 (linear_gain (g1 + rest))) by lra.
  rewrite (Rabs_left1 (linear_gain (g2 + rest))) by lra.
  apply Rmult_le_compat_l; [apply Rabs_pos | lra].
Qed.

(** ** Presets *)

Lemma preset_names :
  map fst PRESETS =
  ["Flat"; "Rock"; "Pop"; "Jazz"; "Classical"; "Electronic"; "Vocal"]%string.
Proof. reflexivity. Qed.

Lemma dict_get_absent {V : Type} (d : list (string * V)) (name : string) :
  ~ In name (map fst d) -> dict_get d name = None.
Proof.
  induction d as [|[k v] d IH]; simpl; trivial.
  intros H. destruct (String.eqb_spec name k) as [->|_].
  - exfalso. apply H. now left.
  - apply IH. intros Hin. apply H. now right.
Qed.

Lemma dict_get_present (name : string) :
  In name (map fst PRESETS) ->
  exists tbl, dict_get PRESETS name = Some tbl /\ length tbl = 10%nat.
Proof.
  rewrite preset_names. simpl.
  intros H.
  repeat (destruct H as [<-|H]; [eexists; split; reflexivity|]).
  contradiction.
Qed.

Lemma list_set_twice {A : Type} (l : list A) (i : nat) (a b : A) :
  list_set (list_set l i a) i b = list_set l i b.
Proof.
  revert i. induction l as [|x l IH]; intros [|i]; simpl; trivial.
  now rewrite IH.
Qed.

Lemma preset_step_worker (app : EqualizerApp) (i : nat) (gain : Z) :
  worker (preset_step app (i, gain)) =
  set_gains (worker app) (list_set (gains (worker app)) i (IZR gain)).
Proof.
  unfold preset_step, slider_setValue.
  destruct (Z.eqb _ _); cbn; trivial.
  now rewrite list_set_twice.
Qed.

Lemma firstn_list_set {A : Type} (l : list A) (s : nat) (v : A) :
  (s < length l)%nat -> firstn (S s) (list_set l s v) = firstn s l ++ [v].
Proof.
  revert s. induction l as [|x l IH]; intros [|s] H; simpl in *;
    try lia; trivial.
  f_equal. apply IH. lia.
Qed.

Lemma skipn_list_set {A : Type} (l : list A) (s n : nat) (v : A) :
  (s < n)%nat -> skipn n (list_set l s v) = skipn n l.
Proof.
  revert s n. induction l as [|x l IH]; intros [|s] [|n] H; simpl;
    try lia; trivial.
  apply IH. lia.
Qed.

Lemma fold_list_set (t : list Z) (s : nat) (g : list R) :
  (s + length t <= length g)%nat ->
  fold_left (fun (acc : list R) (ig : nat * Z) =>
               list_set acc (fst ig) (IZR (snd ig)))
            (combine (seq s (length t)) t) g
  = firstn s g ++ map IZR t ++ skipn (s + length t) g.
Proof.
  revert s g. induction t as [|z t IH]; intros s g H;
    cbn [length seq combine fold_left map fst snd app] in *.
  - now rewrite Nat.add_0_r, firstn_skipn.
  - rewrite IH by (rewrite list_set_length; lia).
    rewrite firstn_list_set by lia.
    rewrite skipn_list_set by lia.
    rewrite <- app_assoc. cbn [app].
    now replace (S s + length t)%nat with (s + S (length t))%nat by lia.
Qed.

Lemma fold_preset_step_worker (l : list (nat * Z)) (app : EqualizerApp) :
  worker (fold_left preset_step l app) =
  set_gains (worker app)
    (fold_left (fun (acc : list R) (ig : nat * Z) =>
                  list_set acc (fst ig) (IZR (snd ig)))
               l (gains (worker app))).
Proof.
  revert app. induction l as [|[i gain] l IH]; intros app; cbn [fold_left].
  - now destruct (worker app).
  - rewrite IH, preset_step_worker. reflexivity.
Qed.

(** C10 (preset application): for a name that is not a key of [PRESETS]
    [apply_preset] changes nothing at all; for a key it leaves the worker as
    it was except for the band gains, which become the ten values of that
    preset's table, in order. *)
Theorem apply_preset_effect (app : EqualizerApp) (name : string) :
  length (gains (worker app)) = 10%nat ->
  (~ In name (map fst PRESETS) -> apply_preset app name = app) /\
  (In name (map fst PRESETS) ->
   exists tbl,
     dict_get PRESETS name = Some tbl /\ length tbl = 10%nat /\
     worker (apply_preset app name) = set_gains (worker app) (map IZR tbl)).
Proof.
  intros Hlen. split.
  - intros Hnot. unfold apply_preset. now rewrite dict_get_absent.
  - intros Hin. destruct (dict_get_present name Hin) as (tbl & Hget & Htbl).
    exists tbl. repeat split; trivial.
    unfold apply_preset, enumerate. rewrite Hget.
    rewrite fold_preset_step_worker, fold_list_set by lia.
    cbn [firstn List.app Nat.add]. rewrite Htbl, <- Hlen, skipn_all, app_nil_r.
    reflexivity.
Qed.

Lemma apply_preset_effect_witness :
  apply_preset EqualizerApp_init "Metal" = EqualizerApp_init /\
  exists tbl,
    dict_get PRESETS "Rock" = Some tbl /\ length tbl = 10%nat /\
    worker (apply_preset EqualizerApp_init "Rock")
    = set_gains (worker EqualizerApp_init) (map IZR tbl).
Proof.
  split.
  - apply (apply_preset_effect EqualizerApp_init "Metal" eq_refl).
    rewrite preset_names. simpl.
    intros H. repeat (destruct H as [H|H]; [discriminate|]). exact H.
  - apply (apply_preset_effect EqualizerApp_init "Rock" eq_refl).
    rewrite preset_names. simpl. tauto.
Defined.

(** ** The spectrum feed *)

Lemma spectrum_of_single (fr : Np.frame) :
  spectrum_of [fr] = inr [Rabs (Np.sum fr / INR (length fr))].
Proof.
  unfold spectrum_of. cbn -[INR Np.sum].
  unfold Np.dft_re, Np.dft_im. cbn -[INR Np.sum cos sin PI].
  do 2 f_equal.
  replace (2 * PI * INR 0 * INR 0 / INR 1) with 0
    by (simpl; unfold Rdiv; ring).
  rewrite cos_0, sin_0.
  set (m := Np.sum fr / INR (length fr)).
  cbn [Np.sum fold_right].
  replace (m * 1 * 1 + 0) with m by ring.
  replace (- (m * 1 * 0 + 0)) with 0 by ring.
  rewrite Rsqr_0, Rplus_0_r. apply sqrt_Rsqr_abs.
Qed.

Lemma pre_clip_flat (w : AudioWorker) (d : Np.block) (frames : nat) :
  Forall (fun g => g = 0) (gains w) ->
  bass_boost w = 0 -> treble_boost w = 0 ->
  is_bass_booster_active w = false ->
  pre_clip w d frames =
  Np.scale (Np.scale (next_chunk w d frames) (preamp w)) (master_vol w).
Proof.
  intros Hg Hb Ht Hk. unfold pre_clip, dry_chunk, band_loop.
  rewrite fold_left_skip; trivial.
  intros acc [i sos] _. apply band_step_skip. now apply total_gain_flat.
Qed.

(** C8, a counterexample to the claim as stated: one stereo frame (2, 2) with
    flat controls, pre-amp and master volume 1.  The block written to the
    device is clipped to (1, 1), whose spectrum would be [1]; the array
    emitted on [spectrum_ready] is [2], the spectrum of the block before
    clipping. *)
Lemma spectrum_taken_before_clip :
  cb_outdata (callback w_hot [[0; 0]] 1) = [[1; 1]] /\
  cb_emitted (callback w_hot [[0; 0]] 1) = Some [2] /\
  spectrum_of [[1; 1]] = inr [1].
Proof.
  assert (Hpre : pre_clip w_hot [[2; 2]] 1 = [[2 * 1 * 1; 2 * 1 * 1]]).
  { rewrite pre_clip_flat; try reflexivity. simpl. repeat constructor. }
  destruct (callback_normal_block w_hot [[0; 0]] 1 2 [[2; 2]]
              eq_refl eq_refl ltac:(repeat constructor)
              ltac:(simpl; lia) ltac:(lia) eq_refl)
    as [fft [Hfft Hcb]].
  rewrite Hpre, spectrum_of_single in Hfft. injection Hfft as <-.
  rewrite Hcb, Hpre. cbn [cb_outdata cb_emitted].
  repeat split.
  - unfold Np.clip, Np.clip1, Rmin, Rmax. cbn [map].
    destruct (Rle_dec (2 * 1 * 1) (-1)); [lra|].
    destruct (Rle_dec (2 * 1 * 1) 1); [lra|]. reflexivity.
  - do 2 f_equal. cbn [Np.sum fold_right length INR].
    rewrite Rabs_right; lra.
  - rewrite spectrum_of_single. do 2 f_equal.
    cbn [Np.sum fold_right length INR]. rewrite Rabs_right; lra.
Qed.

Lemma abs_rfft_facts (x f : list R) :
  Np.abs_rfft x = inr f ->
  length f = (length x / 2 + 1)%nat /\ Forall (fun m => 0 <= m) f.
Proof.
  unfold Np.abs_rfft. destruct x as [|x0 x]; [discriminate|].
  intros [= <-]. split.
  - now rewrite length_map, length_seq.
  - apply Forall_map, Forall_forall. intros k _. apply sqrt_pos.
Qed.

Lemma take_nonneg (data : list R) (indices : list nat) :
  Forall (fun m => 0 <= m) data ->
  Forall (fun m => 0 <= m) (Np.take data indices).
Proof.
  intros Hd. unfold Np.take. apply Forall_map, Forall_forall.
  intros i _. destruct (Nat.lt_ge_cases i (length data)) as [Hi|Hi].
  - rewrite Forall_forall in Hd. apply Hd. now apply nth_In.
  - rewrite nth_overflow by exact Hi. lra.
Qed.

Lemma update_spectrum_eq (v : Visualizer) (data : list R) :
  spectrum (update_spectrum v data) =
  if (60 <? length data)%nat
  then map (fun i => nth (i * (length data - 1) / 59)%nat data 0) (seq 0 60)
  else spectrum v.
Proof.
  unfold update_spectrum, Np.take, Np.linspace_int.
  destruct (60 <? length data)%nat; reflexivity.
Qed.

(** C8 as amended: for a processed block the device buffer receives the
    clipped block, but the spectrum is taken from the block before clipping
    (the accumulator after the master volume): the array emitted is the list
    of magnitudes of the real-input transform of the Hann-windowed channel
    average of that block, [frames / 2 + 1] non-negative values.  The
    visualizer replaces its snapshot only when more than 60 values arrive,
    by the 60 values at the indices [i * (len - 1) / 59] rounded down
    ([i = 0 .. 59]; one value picked per index, no averaging), and keeps the
    previous snapshot otherwise; the snapshot stays non-negative. *)
Theorem spectrum_feed (w : AudioWorker) (outdata : Np.block)
  (frames c : nat) (d : Np.block) (v : Visualizer) :
  is_playing w = true -> data w = Some d -> rect c d ->
  (current_frame w + frames <= length d)%nat -> (0 < frames)%nat ->
  Np.shape outdata = repeat c frames ->
  Forall (fun m => 0 <= m) (spectrum v) ->
  exists fft_data,
    cb_outdata (callback w outdata frames)
      = Np.clip (pre_clip w d frames) (-1) 1 /\
    cb_emitted (callback w outdata frames) = Some fft_data /\
    Np.abs_rfft
      (Np.mul1 (Np.mean_axis1 (pre_clip w d frames))
               (Np.hanning (length (Np.mean_axis1 (pre_clip w d frames)))))
      = inr fft_data /\
    length fft_data = (frames / 2 + 1)%nat /\
    Forall (fun m => 0 <= m) fft_data /\
    spectrum (update_spectrum v fft_data) =
      (if (60 <? length fft_data)%nat
       then map (fun i => nth (i * (length fft_data - 1) / 59)%nat fft_data 0)
                (seq 0 60)
       else spectrum v) /\
    Forall (fun m => 0 <= m) (spectrum (update_spectrum v fft_data)).
Proof.
  intros Hp Hd Hr Hle Hpos Hs Hv.
  destruct (callback_normal_block w outdata frames c d Hp Hd Hr Hle Hpos Hs)
    as [fft [Hfft Hcb]].
  exists fft. rewrite Hcb. cbn [cb_outdata cb_emitted].
  unfold spectrum_of in Hfft.
  destruct (abs_rfft_facts _ _ Hfft) as [Hlen Hnn].
  repeat split; trivial.
  - rewrite Hlen. unfold Np.mul1.
    rewrite zip_with_length by (now rewrite hanning_length).
    unfold Np.mean_axis1. rewrite length_map, <- shape_length.
    now rewrite (pre_clip_shape w c d frames Hr Hle), repeat_length.
  - apply update_spectrum_eq.
  - unfold update_spectrum. destruct (60 <? length fft)%nat; trivial.
    cbn [spectrum]. now apply take_nonneg.
Qed.

Lemma spectrum_feed_witness :
  exists fft_data,
    cb_emitted (callback w_long (repeat [0; 0] 128) 128) = Some fft_data /\
    length fft_data = 65%nat /\
    length (spectrum (update_spectrum Visualizer_init fft_data)) = 60%nat /\
    Forall (fun m => 0 <= m)
           (spectrum (update_spectrum Visualizer_init fft_data)).
Proof.
  destruct (spectrum_feed w_long (repeat [0; 0] 128) 128 2
              (repeat [0.5; 0.25] 128) Visualizer_init
              eq_refl eq_refl)
    as (fft & _ & Hem & _ & Hlen & _ & Hsp & Hnn).
  - apply Forall_forall. intros fr Hfr.
    apply repeat_spec in Hfr. now subst fr.
  - rewrite repeat_length. simpl. lia.
  - lia.
  - unfold Np.shape. rewrite map_repeat. reflexivity.
  - apply Forall_forall. intros m Hm. apply repeat_spec in Hm. lra.
  - exists fft. repeat split; trivial.
    rewrite Hsp, Hlen. change (60 <? 128 / 2 + 1)%nat with true.
    reflexivity.
Defined.

(** ** What [callback] keeps *)

Lemma set_cursor_same (w : AudioWorker) :
  set_is_playing (set_current_frame w (current_frame w)) (is_playing w) = w.
Proof. now destruct w. Qed.

(** X1: [callback] writes nothing but the playback cursor.  In every branch
    the buffer, the sample rate, the gains, pre-amp, master volume, boosts,
    booster flag and the filter bank are left as they were; the position
    never moves back, and playback is never switched on. *)
Theorem callback_touches_only_cursor (w : AudioWorker) (outdata : Np.block)
  (frames : nat) :
  let w' := cb_worker (callback w outdata frames) in
  set_is_playing (set_current_frame w' (current_frame w)) (is_playing w) = w /\
  (current_frame w <= current_frame w')%nat /\
  (is_playing w' = true -> is_playing w = true).
Proof.
  cbv zeta. unfold callback.
  destruct w as [dat rate cf play g pa mv bb tb act filt].
  cbn [is_playing data current_frame].
  destruct play; [destruct dat as [d|]|];
    try (cbn; repeat split; auto; fail).
  destruct (length d <? cf + frames)%nat;
    try (cbn; repeat split; auto; fail).
  match goal with
  | |- context [Np.clip_out ?a ?lo ?hi ?o] => destruct (Np.clip_out a lo hi o)
  end; try (cbn; repeat split; auto; fail).
  match goal with
  | |- context [spectrum_of ?a] => destruct (spectrum_of a)
  end; cbn; repeat split; auto; lia.
Qed.

(** X2: the position never runs past the end of the buffer: when it is
    within the buffer before a call, it is within the buffer after it. *)
Theorem position_stays_in_buffer (w : AudioWorker) (outdata : Np.block)
  (frames : nat) (d : Np.block) :
  data w = Some d ->
  (current_frame w <= length d)%nat ->
  (current_frame (cb_worker (callback w outdata frames)) <= length d)%nat.
Proof.
  intros Hd Hle. unfold callback. rewrite Hd.
  destruct (is_playing w); trivial.
  destruct (Nat.ltb_spec (length d) (current_frame w + frames)); trivial.
  destruct (Np.clip_out _ _ _ _); trivial.
  destruct (spectrum_of _); trivial.
Qed.

Lemma position_stays_in_buffer_witness :
  (current_frame (cb_worker (callback w_tail stale_outdata 2)) <= 3)%nat.
Proof.
  apply (position_stays_in_buffer w_tail stale_outdata 2
           [[0.1; 0.1]; [0.2; 0.2]; [0.3; 0.3]]).
  - reflexivity.
  - simpl. lia.
Defined.

Lemma shape_fill0 (a : Np.block) : Np.shape (Np.fill0 a) = Np.shape a.
Proof.
  unfold Np.shape, Np.fill0. rewrite map_map.
  apply map_ext. intros fr. apply length_map.
Qed.

Lemma broadcast_row_length (width : nat) (r r' : Np.frame) :
  Np.broadcast_row width r = Some r' -> length r' = width.
Proof.
  unfold Np.broadcast_row.
  destruct (Nat.eqb_spec (length r) width) as [He|_]; [now intros [= <-]|].
  destruct (length r =? 1)%nat; [|discriminate].
  intros [= <-]. apply repeat_length.
Qed.

Lemma broadcast_rows_shape (src dst out : Np.block) :
  Np.broadcast_rows src dst = Some out -> Np.shape out = Np.shape dst.
Proof.
  revert dst out. induction src as [|r src IH]; intros [|q dst] out; simpl;
    try discriminate.
  - now intros [= <-].
  - destruct (Np.broadcast_row (length q) r) as [r'|] eqn:Hrow;
      [|discriminate].
    destruct (Np.broadcast_rows src dst) as [rest|] eqn:Hrest;
      [|discriminate].
    intros [= <-]. simpl. f_equal.
    + eapply broadcast_row_length; eauto.
    + eapply IH; eauto.
Qed.

(** X3: the device buffer keeps its shape.  Whatever branch a call takes
    (idle, end of buffer, processed block, exception), the buffer handed back
    has as many frames and as many channels per frame as the one handed
    in. *)
Theorem callback_keeps_buffer_shape (w : AudioWorker) (outdata : Np.block)
  (frames : nat) :
  Np.shape (cb_outdata (callback w outdata frames)) = Np.shape outdata.
Proof.
  unfold callback.
  destruct (is_playing w); [|apply shape_fill0].
  destruct (data w) as [d|]; [|apply shape_fill0].
  destruct (length d <? current_frame w + frames)%nat; trivial.
  destruct (Np.clip_out _ _ _ _) as [out'|] eqn:Hc; trivial.
  apply broadcast_rows_shape in Hc.
  now destruct (spectrum_of _).
Qed.

(** ** Channel layouts of the buffer and of the device *)

Lemma broadcast_rows_mono (o : nat) (src dst : Np.block) :
  Np.shape src = repeat 1%nat (length src) ->
  Np.shape dst = repeat o (length src) ->
  Np.broadcast_rows src dst =
  Some (map (fun fr => repeat (hd 0 fr) o) src).
Proof.
  revert dst. induction src as [|r src IH]; intros [|q dst] Hs Hd;
    simpl in *; try discriminate; trivial.
  injection Hs as Hr Hs. injection Hd as Hq Hd.
  rewrite (IH dst Hs Hd). unfold Np.broadcast_row. rewrite Hr, Hq.
  destruct (Nat.eqb_spec 1 o) as [<-|_]; trivial.
  destruct r as [|x [|y r]]; try discriminate. reflexivity.
Qed.

Lemma broadcast_rows_mismatch (c o : nat) (src dst : Np.block) :
  c <> o -> c <> 1%nat -> (0 < length src)%nat ->
  Np.shape src = repeat c (length src) ->
  Np.shape dst = repeat o (length src) ->
  Np.broadcast_rows src dst = None.
Proof.
  intros Hco Hc1 Hpos Hs Hd.
  destruct src as [|r src]; [simpl in Hpos; lia|].
  destruct dst as [|q dst]; trivial.
  simpl in *. injection Hs as Hr _. injection Hd as Hq _.
  unfold Np.broadcast_row. rewrite Hr, Hq.
  destruct (Nat.eqb_spec c o); [contradiction|].
  destruct (Nat.eqb_spec c 1); [contradiction|]. reflexivity.
Qed.

Lemma length_pre_clip (w : AudioWorker) (c : nat) (d : Np.block)
  (frames : nat) :
  rect c d -> (current_frame w + frames <= length d)%nat ->
  length (pre_clip w d frames) = frames.
Proof.
  intros Hr Hle. rewrite <- shape_length, (pre_clip_shape w c d frames Hr Hle).
  apply repeat_length.
Qed.

Lemma length_clip (a : Np.block) (lo hi : R) :
  length (Np.clip a lo hi) = length a.
Proof. apply length_map. Qed.

(** X4: a mono buffer plays on every channel of the device.  With one
    channel per frame in the buffer and [o] channels per frame in the device
    buffer, a block inside the buffer is processed without an exception, the
    position advances by the block, and every device frame holds the clipped
    mono sample [o] times. *)
Theorem mono_plays_on_every_channel (w : AudioWorker) (outdata : Np.block)
  (frames o : nat) (d : Np.block) :
  is_playing w = true -> data w = Some d -> rect 1 d ->
  (current_frame w + frames <= length d)%nat -> (0 < frames)%nat ->
  Np.shape outdata = repeat o frames ->
  cb_outdata (callback w outdata frames) =
    map (fun fr => repeat (hd 0 fr) o)
        (Np.clip (pre_clip w d frames) (-1) 1) /\
  cb_raised (callback w outdata frames) = None /\
  current_frame (cb_worker (callback w outdata frames))
    = (current_frame w + frames)%nat.
Proof.
  intros Hp Hd Hr Hle Hpos Hs.
  rewrite (callback_play w outdata frames d Hp Hd Hle).
  pose proof (length_pre_clip w 1 d frames Hr Hle) as Hlen.
  unfold Np.clip_out. rewrite (broadcast_rows_mono o).
  - destruct (spectrum_of_nonempty (pre_clip w d frames)) as [fft Hfft];
      [lia|]. rewrite Hfft. repeat split.
  - now rewrite shape_clip, length_clip, Hlen, (pre_clip_shape w 1 d frames).
  - now rewrite length_clip, Hlen.
Qed.

Lemma mono_plays_on_every_channel_witness :
  cb_outdata (callback w_mono [[0; 0]] 1) =
    map (fun fr => repeat (hd 0 fr) 2)
        (Np.clip (pre_clip w_mono [[0.5]; [-0.25]] 1) (-1) 1) /\
  cb_raised (callback w_mono [[0; 0]] 1) = None /\
  current_frame (cb_worker (callback w_mono [[0; 0]] 1)) = (0 + 1)%nat.
Proof.
  apply (mono_plays_on_every_channel w_mono [[0; 0]] 1 2 [[0.5]; [-0.25]]).
  - reflexivity.
  - reflexivity.
  - repeat constructor.
  - simpl. lia.
  - lia.
  - reflexivity.
Defined.

Lemma run_callbacks_fixed (w : AudioWorker) (outdata : Np.block)
  (frames : nat) :
  cb_worker (callback w outdata frames) = w ->
  forall n, fst (run_callbacks n w outdata frames) = w.
Proof.
  intros Hfix. induction n as [|n IH]; trivial.
  cbn [run_callbacks].
  destruct (run_callbacks n w outdata frames) as [w' outs].
  cbn [fst] in *. now subst w'.
Qed.

Lemma mismatch_raises (w : AudioWorker) (outdata : Np.block)
  (frames c o : nat) (d : Np.block) :
  is_playing w = true -> data w = Some d -> rect c d ->
  (current_frame w + frames <= length d)%nat -> (0 < frames)%nat ->
  Np.shape outdata = repeat o frames ->
  c <> o -> c <> 1%nat ->
  callback w outdata frames =
    mkCallbackResult w outdata None (Some ValueError).
Proof.
  intros Hp Hd Hr Hle Hpos Hs Hco Hc1.
  rewrite (callback_play w outdata frames d Hp Hd Hle).
  pose proof (length_pre_clip w c d frames Hr Hle) as Hlen.
  unfold Np.clip_out. rewrite (broadcast_rows_mismatch c o); trivial.
  - rewrite length_clip. lia.
  - now rewrite shape_clip, length_clip, Hlen,
      (pre_clip_shape w c d frames).
  - now rewrite length_clip, Hlen.
Qed.

(** X5: a buffer whose channel count is neither the device's nor one cannot
    be played.  The call for a block inside the buffer leaves with the
    ValueError of [np.clip], the device buffer and the worker are as before
    (still playing, same position), so every further call does the same. *)
Theorem channel_mismatch_blocks_playback (w : AudioWorker)
  (outdata : Np.block) (frames c o : nat) (d : Np.block) :
  is_playing w = true -> data w = Some d -> rect c d ->
  (current_frame w + frames <= length d)%nat -> (0 < frames)%nat ->
  Np.shape outdata = repeat o frames ->
  c <> o -> c <> 1%nat ->
  callback w outdata frames =
    mkCallbackResult w outdata None (Some ValueError) /\
  forall n, fst (run_callbacks n w outdata frames) = w.
Proof.
  intros Hp Hd Hr Hle Hpos Hs Hco Hc1.
  pose proof (mismatch_raises w outdata frames c o d
                Hp Hd Hr Hle Hpos Hs Hco Hc1) as Hcb.
  split; trivial.
  apply run_callbacks_fixed. now rewrite Hcb.
Qed.

Lemma channel_mismatch_blocks_playback_witness :
  callback w_surround [[0; 0]] 1 =
    mkCallbackResult w_surround [[0; 0]] None (Some ValueError) /\
  forall n, fst (run_callbacks n w_surround [[0; 0]] 1) = w_surround.
Proof.
  apply (channel_mismatch_blocks_playback w_surround [[0; 0]] 1 3 2
           [[0.1; 0.2; 0.3]; [0.3; 0.2; 0.1]]).
  - reflexivity.
  - reflexivity.
  - repeat constructor.
  - simpl. lia.
  - lia.
  - reflexivity.
  - lia.
  - lia.
Defined.

(** X6: a call that leaves with an exception has changed nothing: the
    worker and the device buffer are as they were handed in and nothing was
    emitted. *)
Theorem raising_call_changes_nothing (w : AudioWorker) (outdata : Np.block)
  (frames : nat) (e : exn) :
  cb_raised (callback w outdata frames) = Some e ->
  cb_worker (callback w outdata frames) = w /\
  cb_outdata (callback w outdata frames) = outdata /\
  cb_emitted (callback w outdata frames) = None.
Proof.
  unfold callback.
  destruct (is_playing w); [|discriminate].
  destruct (data w) as [d|]; [|discriminate].
  destruct (length d <? current_frame w + frames)%nat; [discriminate|].
  set (P := Np.scale _ (master_vol w)).
  destruct (Np.clip_out P (-1) 1 outdata) as [out'|] eqn:Hc;
    [|intros _; repeat split].
  destruct (spectrum_of P) as [e'|fft] eqn:Hsp; [|discriminate].
  intros _. cbn. repeat split.
  destruct P as [|fr P'].
  - unfold Np.clip_out in Hc. simpl in Hc.
    destruct outdata; [now injection Hc as <- | discriminate].
  - destruct (spectrum_of_nonempty (fr :: P')) as [fft Hfft];
      [simpl; lia | congruence].
Qed.

Lemma raising_call_changes_nothing_witness :
  cb_worker (callback w_surround [[0; 0]] 1) = w_surround /\
  cb_outdata (callback w_surround [[0; 0]] 1) = [[0; 0]] /\
  cb_emitted (callback w_surround [[0; 0]] 1) = None.
Proof.
  apply (raising_call_changes_nothing w_surround [[0; 0]] 1 ValueError).
  rewrite (mismatch_raises w_surround [[0; 0]] 1 3 2
             [[0.1; 0.2; 0.3]; [0.3; 0.2; 0.1]]);
    try reflexivity; try lia.
  - repeat constructor.
  - simpl. lia.
Defined.

(** ** Playing from the start to the end of the buffer *)

(** X7: played from position 0 in blocks of [frames], a buffer of [L]
    frames is delivered block by block while whole blocks remain; the call
    after the last whole block stops playback with the position at
    [frames * (L / frames)], and every later call leaves the worker there:
    the frames from that position on are never read. *)
Theorem playback_runs_to_last_full_block (w : AudioWorker)
  (d outdata : Np.block) (frames c : nat) :
  is_playing w = true -> data w = Some d -> current_frame w = 0%nat ->
  rect c d -> (0 < frames)%nat -> Np.shape outdata = repeat c frames ->
  let q := (length d / frames)%nat in
  (forall k, (k <= q)%nat ->
     fst (run_callbacks k w outdata frames)
     = set_current_frame w (k * frames)) /\
  (forall m,
     fst (run_callbacks (S q + m) w outdata frames)
     = set_is_playing (set_current_frame w (q * frames)) false) /\
  (q * frames <= length d < q * frames + frames)%nat.
Proof.
  intros Hp Hd H0 Hr Hpos Hs. cbv zeta. split; [|split].
  - intros k Hk. now apply (full_blocks_advance w d outdata frames c).
  - intros m. now apply (stays_stopped w d outdata frames c).
  - pose proof (Nat.Div0.mul_div_le (length d) frames).
    pose proof (Nat.mul_succ_div_gt (length d) frames ltac:(lia)). nia.
Qed.

Lemma playback_runs_to_last_full_block_witness :
  fst (run_callbacks (S (3 / 2) + 4) w_three stale_outdata 2)
  = set_is_playing (set_current_frame w_three (3 / 2 * 2)) false.
Proof.
  apply (playback_runs_to_last_full_block w_three
           [[0.1; 0.1]; [0.2; 0.2]; [0.3; 0.3]] stale_outdata 2 2);
    try reflexivity.
  - repeat constructor.
  - lia.
Defined.

(** ** Silence *)

Lemma all_zero_scale (a : Np.block) (k : R) :
  all_zero a -> all_zero (Np.scale a k).
Proof.
  unfold all_zero, Np.scale. intros H.
  apply Forall_map. eapply Forall_impl; [|exact H].
  intros fr Hfr. apply Forall_map. eapply Forall_impl; [|exact Hfr].
  intros x ->. simpl. ring.
Qed.

Lemma scale_by_zero (a : Np.block) : all_zero (Np.scale a 0).
Proof.
  unfold all_zero, Np.scale.
  apply Forall_map, Forall_forall. intros fr _.
  apply Forall_map, Forall_forall. intros x _. simpl. ring.
Qed.

Lemma all_zero_add (a b : Np.block) :
  all_zero a -> all_zero b -> all_zero (Np.add a b).
Proof.
  unfold all_zero, Np.add. intros Ha. revert b.
  induction Ha as [|r a Hr _ IH]; intros b Hb; simpl; [constructor|].
  destruct Hb as [|q b Hq Hb]; constructor; [|now apply IH].
  clear -Hr Hq. revert q Hq.
  induction Hr as [|x r Hx _ IHr]; intros q Hq; simpl; [constructor|].
  destruct Hq as [|y q Hy Hq]; constructor; [|now apply IHr].
  subst. ring.
Qed.

Lemma cascade_step_zero (f : Sp.sos) (zs : list Sp.delay) :
  Forall (fun z => z = (0, 0)) zs ->
  fst (Sp.cascade_step f zs 0) = 0 /\
  Forall (fun z => z = (0, 0)) (snd (Sp.cascade_step f zs 0)).
Proof.
  revert zs. induction f as [|s f IH]; intros zs Hz; simpl; auto.
  destruct zs as [|z zs]; simpl; auto.
  pose proof (Forall_inv Hz) as Hz0. pose proof (Forall_inv_tail Hz) as Hz'.
  cbn beta in Hz0. subst z.
  unfold Sp.biquad_step. cbn [fst snd].
  replace (Sp.b0 s * 0 + 0) with 0 by ring.
  specialize (IH zs Hz').
  destruct (Sp.cascade_step f zs 0) as [y zs'']. cbn [fst snd] in *.
  destruct IH as [-> IH]. split; trivial.
  constructor; trivial. f_equal; ring.
Qed.

Lemma frame_step_zero (f : Sp.sos) (zi : list (list Sp.delay))
  (fr : Np.frame) :
  Forall (fun x => x = 0) fr ->
  Forall (Forall (fun z => z = (0, 0))) zi ->
  Forall (fun x => x = 0) (fst (Sp.frame_step f zi fr)) /\
  Forall (Forall (fun z => z = (0, 0))) (snd (Sp.frame_step f zi fr)).
Proof.
  intros Hfr. revert zi.
  induction Hfr as [|x fr Hx _ IH]; intros zi Hzi.
  { destruct zi; simpl; split; constructor. }
  destruct zi as [|zs zi]; simpl; [split; constructor|].
  pose proof (Forall_inv Hzi) as Hzs.
  pose proof (Forall_inv_tail Hzi) as Hzi'. subst x.
  destruct (cascade_step_zero f zs Hzs) as [Hy Hzs'].
  destruct (Sp.cascade_step f zs 0) as [y zs']. cbn [fst snd] in *.
  specialize (IH zi Hzi').
  destruct (Sp.frame_step f zi fr) as [ys zi'']. cbn [fst snd] in *.
  destruct IH as [IH1 IH2]. split; constructor; trivial.
Qed.

Lemma sosfilt_zi_zero (f : Sp.sos) (x : Np.block) :
  all_zero x ->
  forall zi, Forall (Forall (fun z => z = (0, 0))) zi ->
  all_zero (fst (Sp.sosfilt_zi f zi x)).
Proof.
  unfold all_zero. induction 1 as [|fr x Hfr _ IH]; intros zi Hzi; simpl;
    [constructor|].
  destruct (frame_step_zero f zi fr Hfr Hzi) as [Hy Hzi'].
  destruct (Sp.frame_step f zi fr) as [y zi']. cbn [fst snd] in *.
  specialize (IH zi' Hzi').
  destruct (Sp.sosfilt_zi f zi' x) as [ys zf]. cbn [fst] in *.
  now constructor.
Qed.

Lemma sosfilt_zero (f : Sp.sos) (x : Np.block) :
  all_zero x -> all_zero (Sp.sosfilt f x).
Proof.
  intros Hx. unfold Sp.sosfilt. apply sosfilt_zi_zero; trivial.
  apply history_at_start_rest.
Qed.

Lemma band_loop_zero (w : AudioWorker) (chunk : Np.block) :
  all_zero chunk -> all_zero (band_loop w chunk).
Proof.
  intros Hc. unfold band_loop.
  assert (H : forall l acc, all_zero acc ->
                all_zero (fold_left (band_step w chunk) l acc)).
  { induction l as [|[i sos] l IH]; intros acc Ha; simpl; trivial.
    apply IH. destruct (Req_dec_T (total_gain w i) 0); trivial.
    apply all_zero_add; trivial.
    now apply all_zero_scale, sosfilt_zero. }
  now apply H.
Qed.

Lemma all_zero_clip (a : Np.block) :
  all_zero a -> all_zero (Np.clip a (-1) 1).
Proof.
  unfold all_zero, Np.clip. intros H.
  apply Forall_map. eapply Forall_impl; [|exact H].
  intros fr Hfr. apply Forall_map. eapply Forall_impl; [|exact Hfr].
  intros x ->. simpl. apply clip1_inside. lra.
Qed.

Lemma broadcast_rows_all_zero (src dst out : Np.block) :
  all_zero src -> Np.broadcast_rows src dst = Some out -> all_zero out.
Proof.
  unfold all_zero. intros Hs. revert dst out.
  induction Hs as [|r src Hr _ IH]; intros [|q dst] out; simpl;
    try discriminate.
  - intros [= <-]. constructor.
  - destruct (Np.broadcast_row (length q) r) as [r'|] eqn:Hrow;
      [|discriminate].
    destruct (Np.broadcast_rows src dst) as [rest|] eqn:Hrest;
      [|discriminate].
    intros [= <-]. constructor; [|eapply IH; eauto].
    revert Hrow. unfold Np.broadcast_row.
    destruct (length r =? length q)%nat; [now intros [= <-]|].
    destruct (length r =? 1)%nat; [|discriminate].
    intros [= <-]. apply Forall_forall. intros x Hx.
    apply repeat_spec in Hx. subst x.
    destruct Hr; trivial.
Qed.

Lemma sum_zero (l : list R) : Forall (fun x => x = 0) l -> Np.sum l = 0.
Proof.
  induction 1 as [|x l Hx _ IH]; simpl; trivial. rewrite IH, Hx. ring.
Qed.

Lemma nth_zero (l : list R) (j : nat) :
  Forall (fun x => x = 0) l -> nth j l 0 = 0.
Proof.
  intros H. destruct (Nat.lt_ge_cases j (length l)) as [Hj|Hj].
  - rewrite Forall_forall in H. apply H. now apply nth_In.
  - now apply nth_overflow.
Qed.

Lemma mul1_zero (a b : list R) :
  Forall (fun x => x = 0) a -> Forall (fun x => x = 0) (Np.mul1 a b).
Proof.
  unfold Np.mul1. intros Ha. revert b.
  induction Ha as [|x a Hx _ IH]; intros [|y b]; simpl; constructor; auto.
  subst. ring.
Qed.

Lemma spectrum_of_zero (a : Np.block) (fft : list R) :
  all_zero a -> spectrum_of a = inr fft -> Forall (fun m => m = 0) fft.
Proof.
  intros Ha. unfold spectrum_of.
  assert (Hm : Forall (fun x => x = 0) (Np.mean_axis1 a)).
  { unfold Np.mean_axis1. apply Forall_map.
    eapply Forall_impl; [|exact Ha]. intros fr Hfr. simpl.
    rewrite (sum_zero fr Hfr). unfold Rdiv. ring. }
  pose proof (mul1_zero _ (Np.hanning (length (Np.mean_axis1 a))) Hm) as Hx.
  set (x := Np.mul1 _ _) in *. clearbody x.
  unfold Np.abs_rfft. destruct x as [|x0 x']; [discriminate|].
  intros [= <-]. apply Forall_map, Forall_forall. intros k _.
  assert (Hre : Np.dft_re (x0 :: x') k = 0).
  { unfold Np.dft_re. apply sum_zero, Forall_map, Forall_forall.
    intros j _. cbn beta. rewrite (nth_zero _ j Hx). ring. }
  assert (Him : Np.dft_im (x0 :: x') k = 0).
  { unfold Np.dft_im. rewrite sum_zero; [ring|].
    apply Forall_map, Forall_forall.
    intros j _. cbn beta. rewrite (nth_zero _ j Hx). ring. }
  rewrite Hre, Him, Rsqr_0, Rplus_0_r. apply sqrt_0.
Qed.

Lemma zero_block_outputs (w : AudioWorker) (outdata : Np.block)
  (frames : nat) (d : Np.block) :
  is_playing w = true -> data w = Some d ->
  (current_frame w + frames <= length d)%nat ->
  all_zero (pre_clip w d frames) ->
  cb_raised (callback w outdata frames) = None ->
  all_zero (cb_outdata (callback w outdata frames)) /\
  exists fft_data,
    cb_emitted (callback w outdata frames) = Some fft_data /\
    Forall (fun m => m = 0) fft_data.
Proof.
  intros Hp Hd Hle Hz. rewrite (callback_play w outdata frames d Hp Hd Hle).
  destruct (Np.clip_out (pre_clip w d frames) (-1) 1 outdata) as [out'|]
    eqn:Hc; [|discriminate].
  destruct (spectrum_of (pre_clip w d frames)) as [e|fft] eqn:Hsp;
    [discriminate|].
  intros _. cbn [cb_outdata cb_emitted]. split.
  - unfold Np.clip_out in Hc.
    eapply broadcast_rows_all_zero; [|exact Hc]. now apply all_zero_clip.
  - exists fft. split; trivial. now apply (spectrum_of_zero _ _ Hz).
Qed.

(** X8: digital silence stays silent.  When the frames of the next block
    are all zero, the processed block written to the device is all zero and
    so is every value of the emitted spectrum, whatever the gains, boosts,
    pre-amp, master volume and filters are. *)
Theorem silence_stays_silent (w : AudioWorker) (outdata : Np.block)
  (frames : nat) (d : Np.block) :
  is_playing w = true -> data w = Some d ->
  (current_frame w + frames <= length d)%nat ->
  all_zero (next_chunk w d frames) ->
  cb_raised (callback w outdata frames) = None ->
  all_zero (cb_outdata (callback w outdata frames)) /\
  exists fft_data,
    cb_emitted (callback w outdata frames) = Some fft_data /\
    Forall (fun m => m = 0) fft_data.
Proof.
  intros Hp Hd Hle Hz Hr.
  apply (zero_block_outputs w outdata frames d); trivial.
  unfold pre_clip, dry_chunk.
  now apply all_zero_scale, band_loop_zero, all_zero_scale.
Qed.

Lemma silence_stays_silent_witness :
  all_zero (cb_outdata (callback w_quiet [[7; 7]] 1)).
Proof.
  apply (silence_stays_silent w_quiet [[7; 7]] 1 [[0; 0]; [0.5; 0.5]]).
  - reflexivity.
  - reflexivity.
  - simpl. lia.
  - repeat constructor.
  - destruct (callback_normal_block w_quiet [[7; 7]] 1 2
                [[0; 0]; [0.5; 0.5]] eq_refl eq_refl
                ltac:(repeat constructor) ltac:(simpl; lia) ltac:(lia)
                eq_refl) as [fft [_ Hcb]].
    now rewrite Hcb.
Defined.



(** ** Bands without a filter *)

Lemma in_enumerate_lt {A : Type} (l : list A) (i : nat) (x : A) :
  In (i, x) (enumerate l) -> (i < length l)%nat.
Proof.
  unfold enumerate. intros H. apply in_combine_l in H.
  apply in_seq in H. lia.
Qed.

Lemma list_set_nth_other {A : Type} (l : list A) (i j : nat) (v d : A) :
  i <> j -> nth j (list_set l i v) d = nth j l d.
Proof.
  revert i j. induction l as [|x l IH]; intros [|i] [|j] H; simpl;
    try congruence; trivial.
  apply IH. congruence.
Qed.

Lemma total_gain_other_band (w : AudioWorker) (i j : nat) (g : R) :
  i <> j -> total_gain (with_band_gain w i g) j = total_gain w j.
Proof.
  intros H. unfold total_gain, with_band_gain.
  cbn [gains set_gains bass_boost treble_boost is_bass_booster_active].
  now rewrite list_set_nth_other.
Qed.

Lemma band_loop_dead_band (w : AudioWorker) (i : nat) (g : R)
  (chunk : Np.block) :
  (length (sos_filters w) <= i)%nat ->
  band_loop (with_band_gain w i g) chunk = band_loop w chunk.
Proof.
  intros Hi. unfold band_loop.
  cbn [sos_filters with_band_gain set_gains].
  apply fold_left_ext_in. intros acc [j sos] Hin.
  apply in_enumerate_lt in Hin.
  unfold band_step. rewrite total_gain_other_band by lia. reflexivity.
Qed.

(** X10: a band without a filter is dead.  The band loop runs over the
    filters that exist, so when the filter bank has no entry for band [i]
    (a rebuild that stopped before it), setting the gain of band [i] changes
    neither the block written to the device, nor the emitted spectrum, nor
    whether the call raises. *)
Theorem band_without_filter_is_dead (w : AudioWorker) (i : nat) (g : R)
  (outdata : Np.block) (frames : nat) :
  (length (sos_filters w) <= i)%nat ->
  cb_outdata (callback (with_band_gain w i g) outdata frames)
    = cb_outdata (callback w outdata frames) /\
  cb_emitted (callback (with_band_gain w i g) outdata frames)
    = cb_emitted (callback w outdata frames) /\
  cb_raised (callback (with_band_gain w i g) outdata frames)
    = cb_raised (callback w outdata frames).
Proof.
  intros Hi. unfold callback.
  cbn [is_playing data current_frame preamp master_vol with_band_gain
       set_gains].
  destruct (is_playing w); [|repeat split].
  destruct (data w) as [d|]; [|repeat split].
  destruct (length d <? current_frame w + frames)%nat; [repeat split|].
  fold (with_band_gain w i g). rewrite (band_loop_dead_band w i g) by exact Hi.
  destruct (Np.clip_out _ _ _ _); [|repeat split].
  destruct (spectrum_of _); repeat split.
Qed.

Lemma band_without_filter_is_dead_witness :
  cb_outdata (callback (with_band_gain w_nine 9 15) [[0; 0]] 1)
    = cb_outdata (callback w_nine [[0; 0]] 1).
Proof.
  apply (band_without_filter_is_dead w_nine 9 15 [[0; 0]] 1).
  simpl. lia.
Defined.

(** ** Loading and rebuilding, composed with playback *)

(** X11: loading while playing switches to the new buffer without a pause.
    [load_file] does not touch [is_playing]; after a load that succeeds
    (sample rate above 22626 Hz) on a playing worker, the next call of
    [callback] processes the first [frames] frames of the new buffer and
    moves the position to [frames]. *)
Theorem load_while_playing_restarts
  (bessel_coeffs : nat -> R * R -> R -> Sp.sos)
  (sf_read : string -> exn + (Np.block * Z))
  (w : AudioWorker) (path : string) (d : Np.block) (rate : Z)
  (outdata : Np.block) (frames c : nat) :
  sf_read path = inr (d, rate) -> (22626 < rate)%Z ->
  is_playing w = true -> rect c d ->
  (0 < frames <= length d)%nat -> Np.shape outdata = repeat c frames ->
  let w1 := fst (load_file bessel_coeffs sf_read w path) in
  snd (load_file bessel_coeffs sf_read w path) = None /\
  is_playing w1 = true /\
  next_chunk w1 d frames = firstn frames d /\
  cb_outdata (callback w1 outdata frames)
    = Np.clip (pre_clip w1 d frames) (-1) 1 /\
  current_frame (cb_worker (callback w1 outdata frames)) = frames /\
  cb_raised (callback w1 outdata frames) = None.
Proof.
  intros Hread Hrate Hp Hr [Hpos Hle] Hs. cbv zeta.
  unfold load_file. rewrite Hread, update_filters_spec.
  cbn [fst snd fs set_current_frame set_data].
  apply Z.ltb_lt in Hrate. rewrite Hrate.
  set (w1 := set_sos_filters _ _).
  destruct (callback_normal_block w1 outdata frames c d Hp eq_refl Hr
              ltac:(simpl; lia) Hpos Hs) as [fft [_ Hcb]].
  rewrite Hcb. cbn. repeat split; trivial.
  unfold next_chunk, Np.slice. cbn. now rewrite Nat.sub_0_r.
Qed.

Lemma load_while_playing_restarts_witness :
  cb_outdata
    (callback (fst (load_file any_coeffs read_48000 w_flat "next.wav"))
              [[0; 0]] 1)
  = Np.clip
      (pre_clip (fst (load_file any_coeffs read_48000 w_flat "next.wav"))
                [[0.5; 0.5]; [0.25; 0.25]] 1) (-1) 1.
Proof.
  apply (load_while_playing_restarts any_coeffs read_48000 w_flat "next.wav"
           [[0.5; 0.5]; [0.25; 0.25]] 48000 [[0; 0]] 1 2);
    try reflexivity.
  - repeat constructor.
  - simpl. lia.
Defined.

(** X12: a rebuild replaces the filter bank, it never adds to it.
    Rebuilding again gives the same result as rebuilding once, the bank never
    holds more than ten filters, and it holds exactly ten precisely when the
    rebuild raised nothing. *)
Theorem rebuild_replaces_bank
  (bessel_coeffs : nat -> R * R -> R -> Sp.sos) (w : AudioWorker) :
  _update_filters bessel_coeffs (fst (_update_filters bessel_coeffs w))
    = _update_filters bessel_coeffs w /\
  (length (sos_filters (fst (_update_filters bessel_coeffs w))) <= 10)%nat /\
  (snd (_update_filters bessel_coeffs w) = None <->
   length (sos_filters (fst (_update_filters bessel_coeffs w))) = 10%nat).
Proof.
  rewrite !update_filters_spec. cbn [fst snd fs sos_filters set_sos_filters].
  split; [reflexivity|]. rewrite length_map.
  pose proof (all_bands_ok (fs w)) as Hall.
  destruct (22626 <? fs w)%Z.
  - rewrite (valid_prefix_all _ _ Hall). simpl. split; [lia|tauto].
  - pose proof (valid_prefix_short _ _ Hall) as Hlt.
    change (length BANDS) with 10%nat in Hlt.
    split; [lia|]. split; [discriminate | lia].
Qed.

(** ** Sliders and gains *)

Lemma map_list_set {A B : Type} (f : A -> B) (l : list A) (i : nat) (v : A) :
  map f (list_set l i v) = list_set (map f l) i (f v).
Proof.
  revert i. induction l as [|x l IH]; intros [|i]; simpl; trivial.
  now rewrite IH.
Qed.

Lemma list_set_same {A : Type} (l : list A) (i : nat) (d : A) :
  list_set l i (nth i l d) = l.
Proof.
  revert i. induction l as [|x l IH]; intros [|i]; simpl; trivial.
  now rewrite IH.
Qed.

Lemma slider_setValue_sliders (app : EqualizerApp) (i : nat) (v : Z) :
  band_sliders (slider_setValue app i v) =
  list_set (band_sliders app) i (Z.max (-15) (Z.min 15 v)).
Proof.
  unfold slider_setValue.
  destruct (Z.eqb_spec (nth i (band_sliders app) 0%Z)
                       (Z.max (-15) (Z.min 15 v))) as [He|_].
  - now rewrite <- He, list_set_same.
  - reflexivity.
Qed.

Lemma slider_setValue_synced (app : EqualizerApp) (i : nat) (v : Z) :
  synced app -> synced (slider_setValue app i v).
Proof.
  unfold synced, slider_setValue. intros Hs.
  destruct (Z.eqb _ _); trivial.
  cbn. now rewrite Hs, map_list_set.
Qed.

Lemma clamp_in_range (v : Z) :
  in_slider_range v -> Z.max (-15) (Z.min 15 v) = v.
Proof. unfold in_slider_range. lia. Qed.

Lemma preset_step_synced (app : EqualizerApp) (i : nat) (gain : Z) :
  in_slider_range gain -> synced app -> synced (preset_step app (i, gain)).
Proof.
  intros Hr Hs. unfold preset_step.
  pose proof (slider_setValue_synced app i gain Hs) as Hs1.
  pose proof (slider_setValue_sliders app i gain) as Hsl.
  rewrite (clamp_in_range gain Hr) in Hsl.
  unfold synced in *. cbn [worker band_sliders gains set_gains].
  rewrite Hs1, <- map_list_set. f_equal.
  rewrite Hsl. apply list_set_twice.
Qed.

Lemma presets_in_range :
  Forall (fun p : string * list Z => Forall in_slider_range (snd p)) PRESETS.
Proof.
  unfold PRESETS, in_slider_range. repeat constructor; simpl; lia.
Qed.

Lemma dict_get_in {V : Type} (d : list (string * V)) (name : string) (v : V) :
  dict_get d name = Some v -> In (name, v) d.
Proof.
  induction d as [|[k x] d IH]; simpl; [discriminate|].
  destruct (String.eqb_spec name k) as [->|_].
  - intros [= ->]. now left.
  - intros H. right. now apply IH.
Qed.

Lemma preset_table_in_range (name : string) (tbl : list Z) :
  dict_get PRESETS name = Some tbl -> Forall in_slider_range tbl.
Proof.
  intros H. apply dict_get_in in H.
  pose proof presets_in_range as Hall. rewrite Forall_forall in Hall.
  apply (Hall _ H).
Qed.

Lemma fold_preset_step_synced (l : list (nat * Z)) (app : EqualizerApp) :
  Forall (fun ig => in_slider_range (snd ig)) l ->
  synced app -> synced (fold_left preset_step l app).
Proof.
  intros Hl. revert app.
  induction Hl as [|[i gain] l Hg _ IH]; intros app Hs; cbn [fold_left];
    trivial.
  apply IH. now apply preset_step_synced.
Qed.

Lemma enumerate_snd_Forall {A : Type} (P : A -> Prop) (l : list A) :
  Forall P l -> Forall (fun ix => P (snd ix)) (enumerate l).
Proof.
  intros H. apply Forall_forall. intros [i x] Hin.
  unfold enumerate in Hin. apply in_combine_r in Hin.
  rewrite Forall_forall in H. now apply H.
Qed.

(** X13: the band sliders and the band gains never drift apart.  When the
    gains of the worker are the slider values, they still are after a slider
    is set to any value (inside or outside its range, at any index) and
    after any preset, known or not, is applied. *)
Theorem sliders_and_gains_stay_synced (app : EqualizerApp) :
  synced app ->
  (forall i v, synced (slider_setValue app i v)) /\
  (forall name, synced (apply_preset app name)).
Proof.
  intros Hs. split.
  - intros i v. now apply slider_setValue_synced.
  - intros name. unfold apply_preset.
    destruct (dict_get PRESETS name) as [tbl|] eqn:Hget; trivial.
    apply fold_preset_step_synced; trivial.
    apply enumerate_snd_Forall. now apply (preset_table_in_range name).
Qed.

Lemma sliders_and_gains_stay_synced_witness :
  (forall i v, synced (slider_setValue EqualizerApp_init i v)) /\
  (forall name, synced (apply_preset EqualizerApp_init name)).
Proof.
  apply (sliders_and_gains_stay_synced EqualizerApp_init). reflexivity.
Defined.

(** X14: a band slider bounds what it is asked for.  Setting slider [i] to
    any value leaves the slider at that value bounded to [-15 .. 15], and
    (sliders and gains in step) the gain of band [i] at the same bounded
    value, so a gain set through a slider is never outside -15 .. 15 dB. *)
Theorem slider_bounds_the_gain (app : EqualizerApp) (i : nat) (v : Z) :
  synced app -> (i < length (band_sliders app))%nat ->
  let app' := slider_setValue app i v in
  nth i (band_sliders app') 0%Z = Z.max (-15) (Z.min 15 v) /\
  nth i (gains (worker app')) 0 = IZR (Z.max (-15) (Z.min 15 v)) /\
  -15 <= nth i (gains (worker app')) 0 <= 15.
Proof.
  intros Hs Hi. cbv zeta.
  pose proof (slider_setValue_synced app i v Hs) as Hs'.
  pose proof (slider_setValue_sliders app i v) as Hsl.
  assert (H1 : nth i (band_sliders (slider_setValue app i v)) 0%Z
               = Z.max (-15) (Z.min 15 v)).
  { rewrite Hsl. now apply list_set_nth_same. }
  assert (H2 : nth i (gains (worker (slider_setValue app i v))) 0
               = IZR (Z.max (-15) (Z.min 15 v))).
  { unfold synced in Hs'. rewrite Hs'.
    change 0 with (IZR 0). now rewrite map_nth, H1. }
  repeat split; trivial; rewrite H2.
  - apply IZR_le. lia.
  - apply IZR_le. lia.
Qed.

Lemma slider_bounds_the_gain_witness :
  nth 3 (band_sliders (slider_setValue EqualizerApp_init 3 40)) 0%Z
    = Z.max (-15) (Z.min 15 40) /\
  nth 3 (gains (worker (slider_setValue EqualizerApp_init 3 40))) 0
    = IZR (Z.max (-15) (Z.min 15 40)) /\
  -15 <= nth 3 (gains (worker (slider_setValue EqualizerApp_init 3 40))) 0
      <= 15.
Proof.
  apply (slider_bounds_the_gain EqualizerApp_init 3 40).
  - reflexivity.
  - simpl. lia.
Defined.

(** ** Presets, applied one after another *)

Lemma fold_list_set_map {A B : Type} (f : B -> A) (t : list B) (s : nat)
  (g : list A) :
  (s + length t <= length g)%nat ->
  fold_left (fun (acc : list A) (ig : nat * B) =>
               list_set acc (fst ig) (f (snd ig)))
            (combine (seq s (length t)) t) g
  = firstn s g ++ map f t ++ skipn (s + length t) g.
Proof.
  revert s g. induction t as [|z t IH]; intros s g H;
    cbn [length seq combine fold_left map fst snd List.app] in *.
  - now rewrite Nat.add_0_r, firstn_skipn.
  - rewrite IH by (rewrite list_set_length; lia).
    rewrite firstn_list_set by lia.
    rewrite skipn_list_set by lia.
    rewrite <- app_assoc. cbn [List.app].
    now replace (S s + length t)%nat with (s + S (length t))%nat by lia.
Qed.

Lemma preset_step_sliders (app : EqualizerApp) (i : nat) (gain : Z) :
  band_sliders (preset_step app (i, gain)) =
  list_set (band_sliders app) i (Z.max (-15) (Z.min 15 gain)).
Proof.
  unfold preset_step. cbn [band_sliders]. apply slider_setValue_sliders.
Qed.

Lemma fold_preset_step_sliders (l : list (nat * Z)) (app : EqualizerApp) :
  band_sliders (fold_left preset_step l app) =
  fold_left (fun (acc : list Z) (ig : nat * Z) =>
               list_set acc (fst ig) (Z.max (-15) (Z.min 15 (snd ig))))
            l (band_sliders app).
Proof.
  revert app. induction l as [|[i gain] l IH]; intros app; cbn [fold_left];
    trivial.
  now rewrite IH, preset_step_sliders.
Qed.

Lemma apply_preset_state (app : EqualizerApp) (name : string)
  (tbl : list Z) :
  length (gains (worker app)) = 10%nat ->
  length (band_sliders app) = 10%nat ->
  dict_get PRESETS name = Some tbl ->
  apply_preset app name =
  mkEqualizerApp (set_gains (worker app) (map IZR tbl)) tbl.
Proof.
  intros Hg Hsl Hget.
  assert (Htbl : length tbl = 10%nat).
  { destruct (dict_get_present name) as (t & Ht & Hlen).
    - apply dict_get_in in Hget. now apply (in_map fst) in Hget.
    - congruence. }
  pose proof (preset_table_in_range name tbl Hget) as Hrange.
  unfold apply_preset, enumerate. rewrite Hget.
  set (r := fold_left preset_step _ app).
  assert (Hw : worker r = set_gains (worker app) (map IZR tbl)).
  { unfold r. rewrite fold_preset_step_worker, fold_list_set by lia.
    cbn [firstn List.app Nat.add].
    now rewrite Htbl, <- Hg, skipn_all, app_nil_r. }
  assert (Hs : band_sliders r = tbl).
  { unfold r. rewrite fold_preset_step_sliders.
    rewrite (fold_list_set_map (fun v => Z.max (-15) (Z.min 15 v))) by lia.
    cbn [firstn List.app Nat.add].
    rewrite Htbl, <- Hsl, skipn_all, app_nil_r.
    rewrite <- (map_id tbl) at 2. apply map_ext_in.
    intros v Hv. apply clamp_in_range.
    rewrite Forall_forall in Hrange. now apply Hrange. }
  destruct r as [rw rs]. cbn in Hw, Hs. now subst.
Qed.

(** X15: the last preset wins.  With ten sliders and ten gains, applying a
    known preset puts both the gains and the sliders at the preset's ten
    values and touches nothing else; applying a second known preset after
    any first one gives the same state as applying the second alone, and
    applying the same preset twice is the same as once. *)
Theorem last_preset_wins (app : EqualizerApp) (first second : string)
  (tbl : list Z) :
  length (gains (worker app)) = 10%nat ->
  length (band_sliders app) = 10%nat ->
  dict_get PRESETS second = Some tbl ->
  apply_preset app second =
    mkEqualizerApp (set_gains (worker app) (map IZR tbl)) tbl /\
  apply_preset (apply_preset app first) second = apply_preset app second /\
  apply_preset (apply_preset app second) second = apply_preset app second.
Proof.
  intros Hg Hsl Hget.
  pose proof (apply_preset_state app second tbl Hg Hsl Hget) as H2.
  assert (Htbl : length tbl = 10%nat).
  { destruct (dict_get_present second) as (t & Ht & Hlen).
    - apply dict_get_in in Hget. now apply (in_map fst) in Hget.
    - congruence. }
  split; [exact H2|]. split.
  - destruct (dict_get PRESETS first) as [tbl1|] eqn:Hget1.
    + assert (Htbl1 : length tbl1 = 10%nat).
      { destruct (dict_get_present first) as (t & Ht & Hlen).
        - apply dict_get_in in Hget1. now apply (in_map fst) in Hget1.
        - congruence. }
      rewrite (apply_preset_state app first tbl1 Hg Hsl Hget1).
      rewrite (apply_preset_state _ second tbl); trivial.
      * now rewrite H2.
      * cbn. now rewrite length_map.
    + unfold apply_preset at 2. now rewrite Hget1.
  - rewrite H2 at 1. rewrite (apply_preset_state _ second tbl); trivial.
    + now rewrite H2.
    + cbn. now rewrite length_map.
Qed.

Lemma last_preset_wins_witness :
  apply_preset (apply_preset EqualizerApp_init "Rock") "Jazz"
  = apply_preset EqualizerApp_init "Jazz".
Proof.
  apply (last_preset_wins EqualizerApp_init "Rock" "Jazz"
           [4; 3; 1; 2; -2; -2; 0; 1; 3; 4]%Z); reflexivity.
Defined.

(** ** Pause and resume *)

(** X16: pausing and resuming loses nothing.  [toggle_play] twice gives the
    state back exactly; while paused every call of [callback] writes zeros
    to the whole device buffer, emits no spectrum and leaves the worker,
    position included, as it is. *)
Theorem pause_and_resume (app : EqualizerApp) (outdata : Np.block)
  (frames : nat) :
  is_playing (worker app) = true ->
  let paused := toggle_play app in
  toggle_play paused = app /\
  toggle_play (toggle_play paused) = paused /\
  callback (worker paused) outdata frames =
    mkCallbackResult (worker paused) (Np.fill0 outdata) None None /\
  current_frame (worker paused) = current_frame (worker app).
Proof.
  intros Hp. cbv zeta. unfold toggle_play.
  destruct app as [w sl]. cbn [worker band_sliders] in *.
  destruct w as [dat rate cf play g pa mv bb tb act filt].
  cbn in Hp. subst play.
  destruct dat as [d|]; cbn; repeat split.
Qed.

Lemma pause_and_resume_witness :
  toggle_play (toggle_play (mkEqualizerApp w_rock [])) =
  mkEqualizerApp w_rock [].
Proof.
  apply (pause_and_resume (mkEqualizerApp w_rock []) [] 0). reflexivity.
Defined.

(** ** The visualizer *)

Lemma update_spectrum_length (v : Visualizer) (data : list R) :
  length (spectrum v) = 60%nat ->
  length (spectrum (update_spectrum v data)) = 60%nat.
Proof.
  intros Hv. rewrite update_spectrum_eq.
  destruct (60 <? length data)%nat; [|exact Hv].
  now rewrite length_map, length_seq.
Qed.

Lemma update_spectrum_nonneg (v : Visualizer) (data : list R) :
  Forall (fun m => 0 <= m) (spectrum v) ->
  Forall (fun m => 0 <= m) data ->
  Forall (fun m => 0 <= m) (spectrum (update_spectrum v data)).
Proof.
  intros Hv Hd. unfold update_spectrum.
  destruct (60 <? length data)%nat; trivial.
  cbn [spectrum]. now apply take_nonneg.
Qed.

(** X17: the snapshot of the visualizer always has exactly 60 values, and
    they are never negative.  Starting from [Visualizer.__init__], this
    holds after any sequence of spectra of any lengths (shorter ones are
    ignored) whose values are not negative, as the emitted magnitudes
    are. *)
Theorem snapshot_always_60_nonneg (feeds : list (list R)) :
  Forall (Forall (fun m => 0 <= m)) feeds ->
  length (spectrum (fold_left update_spectrum feeds Visualizer_init))
    = 60%nat /\
  Forall (fun m => 0 <= m)
         (spectrum (fold_left update_spectrum feeds Visualizer_init)).
Proof.
  intros Hf.
  assert (H : forall v,
             length (spectrum v) = 60%nat ->
             Forall (fun m => 0 <= m) (spectrum v) ->
             length (spectrum (fold_left update_spectrum feeds v)) = 60%nat /\
             Forall (fun m => 0 <= m)
                    (spectrum (fold_left update_spectrum feeds v))).
  { induction Hf as [|data feeds Hd _ IH]; intros v Hl Hn; cbn [fold_left];
      [now split|].
    apply IH.
    - now apply update_spectrum_length.
    - now apply update_spectrum_nonneg. }
  apply H.
  - reflexivity.
  - apply Forall_forall. intros m Hm.
    unfold Visualizer_init in Hm. cbn [spectrum] in Hm.
    apply repeat_spec in Hm. lra.
Qed.

Lemma snapshot_always_60_nonneg_witness :
  length (spectrum
            (fold_left update_spectrum [repeat 1 61; [2; 3]] Visualizer_init))
    = 60%nat /\
  Forall (fun m => 0 <= m)
         (spectrum
            (fold_left update_spectrum [repeat 1 61; [2; 3]]
                       Visualizer_init)).
Proof.
  apply (snapshot_always_60_nonneg [repeat 1 61; [2; 3]]).
  repeat constructor; lra.
Defined.

Lemma nth_linspace_int (stop i : nat) :
  (i < 60)%nat ->
  nth i (Np.linspace_int stop 60) 0%nat = (i * stop / 59)%nat.
Proof.
  intros Hi. unfold Np.linspace_int.
  change (60 - 1)%nat with 59%nat.
  rewrite (nth_indep _ 0%nat ((fun j => j * stop / 59) 0)%nat)
    by (now rewrite length_map, length_seq).
  rewrite (map_nth (fun j => j * stop / 59)%nat).
  now rewrite seq_nth.
Qed.

Lemma linspace_step (s i j : nat) :
  (59 <= s)%nat -> (i < j)%nat -> (i * s / 59 < j * s / 59)%nat.
Proof.
  intros Hs Hij.
  assert (H : (i * s / 59 + 1 <= j * s / 59)%nat).
  { rewrite <- (Nat.div_add _ 1 59) by lia.
    apply Nat.Div0.div_le_mono. nia. }
  lia.
Qed.

(** X18: the bins the visualizer picks.  For a spectrum of more than 60
    values the 60 picked indices start at bin 0, end at the last bin, are
    strictly increasing (60 different bins, in order) and all lie inside the
    spectrum, so the indexing never fails. *)
Theorem picked_bins (len : nat) :
  (60 < len)%nat ->
  let indices := Np.linspace_int (len - 1) 60 in
  length indices = 60%nat /\
  nth 0 indices 0%nat = 0%nat /\
  nth 59 indices 0%nat = (len - 1)%nat /\
  (forall i j, (i < j < 60)%nat ->
     (nth i indices 0 < nth j indices 0)%nat) /\
  Forall (fun i => (i < len)%nat) indices.
Proof.
  intros Hlen. cbv zeta.
  assert (Hlast : (59 * (len - 1) / 59 = len - 1)%nat).
  { rewrite Nat.mul_comm. apply Nat.div_mul. lia. }
  split; [|split; [|split; [|split]]].
  - unfold Np.linspace_int. now rewrite length_map, length_seq.
  - rewrite nth_linspace_int by lia. reflexivity.
  - rewrite nth_linspace_int by lia. exact Hlast.
  - intros i j [Hij Hj]. rewrite !nth_linspace_int by lia.
    apply linspace_step; lia.
  - unfold Np.linspace_int. apply Forall_map, Forall_forall.
    intros i Hi. apply in_seq in Hi. change (60 - 1)%nat with 59%nat.
    assert (i * (len - 1) / 59 <= 59 * (len - 1) / 59)%nat
      by (apply Nat.Div0.div_le_mono; nia).
    lia.
Qed.

Lemma picked_bins_witness :
  nth 59 (Np.linspace_int (BLOCK_SIZE / 2 + 1 - 1) 60) 0%nat
  = (BLOCK_SIZE / 2 + 1 - 1)%nat.
Proof.
  apply (picked_bins (BLOCK_SIZE / 2 + 1)).
  unfold BLOCK_SIZE.
  change (2048 / 2 + 1)%nat with 1025%nat. lia.
Defined.

(** ** Bar heights *)

Lemma log10_nonneg (x : R) : 1 <= x -> 0 <= log10 x.
Proof.
  intros Hx. unfold log10.
  assert (H10 : 0 < ln 10) by (rewrite <- ln_1; apply ln_increasing; lra).
  assert (Hl : 0 <= ln x).
  { destruct Hx as [Hx| <-]; [|rewrite ln_1; lra].
    left. rewrite <- ln_1. apply ln_increasing; lra. }
  apply Rmult_le_pos; [exact Hl | left; now apply Rinv_0_lt_compat].
Qed.

Lemma log10_monotone (x y : R) : 0 < x -> x <= y -> log10 x <= log10 y.
Proof.
  intros Hx Hxy. unfold log10.
  assert (H10 : 0 < ln 10) by (rewrite <- ln_1; apply ln_increasing; lra).
  apply Rmult_le_compat_r; [left; now apply Rinv_0_lt_compat|].
  destruct Hxy as [Hlt| ->]; [left; now apply ln_increasing | lra].
Qed.

(** X19: the bars stay inside the widget.  For a widget at least 20 high
    and a snapshot value that is not negative, the bar height computed in
    [paintEvent] lies between 0 and [h - 20]; it is 0 for the value 0 and
    never shrinks when the value grows. *)
Theorem bar_height_bounds (h v1 v2 : R) :
  20 <= h -> 0 <= v1 <= v2 ->
  0 <= bar_h h v1 <= h - 20 /\
  bar_h h 0 = 0 /\
  bar_h h v1 <= bar_h h v2.
Proof.
  intros Hh [H1 H12]. unfold bar_h.
  pose proof (log10_nonneg (v1 + 1) ltac:(lra)) as Ha.
  pose proof (log10_monotone (v1 + 1) (v2 + 1) ltac:(lra) ltac:(lra)) as Hb.
  assert (Hp1 : 0 <= log10 (v1 + 1) * h * 0.6).
  { apply Rmult_le_pos; [apply Rmult_le_pos|]; lra. }
  assert (Hm : log10 (v1 + 1) * h * 0.6 <= log10 (v2 + 1) * h * 0.6).
  { apply Rmult_le_compat_r; [lra|]. apply Rmult_le_compat_r; lra. }
  assert (H0 : log10 (0 + 1) * h * 0.6 = 0).
  { unfold log10. replace (0 + 1) with 1 by ring. rewrite ln_1.
    unfold Rdiv. ring. }
  repeat split.
  - unfold Rmin. destruct (Rle_dec _ _); lra.
  - apply Rmin_l.
  - rewrite H0. unfold Rmin. destruct (Rle_dec _ _); lra.
  - unfold Rmin. repeat destruct (Rle_dec _ _); lra.
Qed.

Lemma bar_height_bounds_witness :
  0 <= bar_h 180 3 <= 180 - 20 /\
  bar_h 180 0 = 0 /\
  bar_h 180 3 <= bar_h 180 9.
Proof.
  apply (bar_height_bounds 180 3 9); lra.
Defined.

(** ** Flat controls *)

Lemma clip_inside (a : Np.block) :
  within_unit a -> Np.clip a (-1) 1 = a.
Proof.
  unfold within_unit, Np.clip. intros H.
  rewrite <- (map_id a) at 2. apply map_ext_in. intros fr Hfr.
  rewrite Forall_forall in H. specialize (H fr Hfr).
  rewrite <- (map_id fr) at 2. apply map_ext_in. intros x Hx.
  rewrite Forall_forall in H. specialize (H x Hx).
  apply clip1_inside. revert H. unfold Rabs.
  destruct (Rcase_abs x); lra.
Qed.

Lemma within_unit_scale (a : Np.block) (k : R) :
  within_unit a -> Rabs k <= 1 -> within_unit (Np.scale a k).
Proof.
  unfold within_unit, Np.scale. intros H Hk.
  apply Forall_map. eapply Forall_impl; [|exact H].
  intros fr Hfr. apply Forall_map. eapply Forall_impl; [|exact Hfr].
  intros x Hx. simpl. rewrite Rabs_mult.
  pose proof (Rabs_pos x). pose proof (Rabs_pos k). nra.
Qed.

(** X20: no distortion at flat controls.  With all band gains and boosts at
    zero, the booster off, and pre-amp and master volume each of magnitude at
    most 1 (as at start-up: 1.0 and 0.8), a block whose samples lie in
    [[-1, 1]] is written to the device as [chunk * preamp * master_vol]
    without any sample being clipped. *)
Theorem flat_controls_do_not_clip (w : AudioWorker) (outdata : Np.block)
  (frames : nat) (d : Np.block) :
  is_playing w = true -> data w = Some d ->
  (current_frame w + frames <= length d)%nat ->
  Np.shape outdata = Np.shape (next_chunk w d frames) ->
  Forall (fun g => g = 0) (gains w) ->
  bass_boost w = 0 -> treble_boost w = 0 ->
  is_bass_booster_active w = false ->
  Rabs (preamp w) <= 1 -> Rabs (master_vol w) <= 1 ->
  within_unit (next_chunk w d frames) ->
  cb_outdata (callback w outdata frames) =
    Np.scale (Np.scale (next_chunk w d frames) (preamp w)) (master_vol w).
Proof.
  intros Hp Hd Hle Hs Hg Hb Ht Hk Hpa Hmv Hin.
  apply (callback_play_outdata w outdata frames d); trivial.
  rewrite pre_clip_flat by assumption.
  rewrite clip_out_same_shape by (now rewrite !shape_scale).
  f_equal. apply clip_inside.
  now apply within_unit_scale; [apply within_unit_scale|].
Qed.

Lemma flat_controls_do_not_clip_witness :
  cb_outdata (callback (set_current_frame w_flat 0) [[7; 7]] 1) =
    Np.scale (Np.scale [[0.5; -0.25]] 1.0) 0.8.
Proof.
  apply (flat_controls_do_not_clip (set_current_frame w_flat 0) [[7; 7]] 1
           [[0.5; -0.25]; [2; 0]]); try reflexivity.
  - simpl. lia.
  - simpl. repeat constructor.
  - simpl. lra.
  - simpl. lra.
  - simpl. rewrite Rabs_right; lra.
  - simpl. rewrite Rabs_right; lra.
  - repeat constructor; simpl.
    + rewrite Rabs_right; lra.
    + rewrite Rabs_left; lra.
Defined.

Lemma apply_preset_worker (app : EqualizerApp) (name : string)
  (tbl : list Z) :
  length (gains (worker app)) = 10%nat ->
  dict_get PRESETS name = Some tbl ->
  worker (apply_preset app name) = set_gains (worker app) (map IZR tbl).
Proof.
  intros Hg Hget.
  assert (Htbl : length tbl = 10%nat).
  { destruct (dict_get_present name) as (t & Ht & Hlen).
    - apply dict_get_in in Hget. now apply (in_map fst) in Hget.
    - congruence. }
  unfold apply_preset, enumerate. rewrite Hget.
  rewrite fold_preset_step_worker, fold_list_set by lia.
  cbn [firstn List.app Nat.add].
  now rewrite Htbl, <- Hg, skipn_all, app_nil_r.
Qed.

(** X21: the Flat preset with the boosts off is the identity path.  After
    [apply_preset("Flat")] on an application with ten gains, with bass and
    treble boost at zero and the booster off, a processed block is
    [clip(chunk * preamp * master_vol, -1, 1)], whatever the gains were
    before. *)
Theorem flat_preset_is_identity (app : EqualizerApp) (outdata : Np.block)
  (frames : nat) (d : Np.block) :
  let w := worker (apply_preset app "Flat") in
  length (gains (worker app)) = 10%nat ->
  is_playing w = true -> data w = Some d ->
  (current_frame w + frames <= length d)%nat ->
  Np.shape outdata = Np.shape (next_chunk w d frames) ->
  bass_boost w = 0 -> treble_boost w = 0 ->
  is_bass_booster_active w = false ->
  cb_outdata (callback w outdata frames) =
    Np.clip
      (Np.scale (Np.scale (next_chunk w d frames) (preamp w)) (master_vol w))
      (-1) 1.
Proof.
  cbv zeta. intros Hlen Hp Hd Hle Hs Hb Ht Hk.
  assert (Hg : gains (worker (apply_preset app "Flat")) = repeat 0 10).
  { now rewrite (apply_preset_worker app "Flat"
                   [0; 0; 0; 0; 0; 0; 0; 0; 0; 0]%Z Hlen eq_refl). }
  apply (callback_play_outdata _ outdata frames d); trivial.
  rewrite pre_clip_flat; trivial.
  - apply clip_out_same_shape. now rewrite !shape_scale.
  - rewrite Hg. apply Forall_forall. intros g Hin.
    now apply repeat_spec in Hin.
Qed.

Lemma flat_preset_is_identity_witness :
  cb_outdata
    (callback (worker (apply_preset
                         (mkEqualizerApp (set_bass_boost
                            (set_is_bass_booster_active w_rock false) 0)
                            (repeat 0%Z 10)) "Flat"))
              [[7; 7]] 1)
  = Np.clip (Np.scale (Np.scale [[0.5; -0.25]] 1.0) 0.8) (-1) 1.
Proof.
  set (app := mkEqualizerApp _ _).
  assert (Hw : worker (apply_preset app "Flat")
               = set_gains (worker app) (map IZR [0;0;0;0;0;0;0;0;0;0]%Z)).
  { now rewrite (apply_preset_worker app "Flat"
                   [0;0;0;0;0;0;0;0;0;0]%Z eq_refl eq_refl). }
  apply (flat_preset_is_identity app [[7; 7]] 1 [[0.5; -0.25]; [2; 0]]);
    try reflexivity; rewrite Hw; try reflexivity; simpl; try lia; lra.
Defined.

(** ** After the window is closed *)

(** X22: after [closeEvent] the engine is silent for good.  However many
    times the device still calls [callback], the worker stays exactly as
    [closeEvent] left it and every buffer handed back is all zeros, whatever
    was loaded or playing before. *)
Theorem closed_window_is_silent (app : EqualizerApp) (outdata : Np.block)
  (frames n : nat) :
  run_callbacks n (worker (closeEvent app)) outdata frames =
  (worker (closeEvent app), repeat (Np.fill0 outdata) n).
Proof.
  induction n as [|n IH]; trivial.
  cbn [run_callbacks repeat]. rewrite IH.
  rewrite callback_idle by (now left).
  reflexivity.
Qed.

(** ** The multiplier of a band *)

(** X23: the multiplier [10**(total_gain/20) - 1] of a band has the sign of
    the band's total gain and never reaches -1: a band above 0 dB adds its
    filtered signal, a band at 0 dB adds nothing, and a band below 0 dB
    takes away less than the whole filtered signal. *)
Theorem multiplier_sign (t : R) :
  -1 < linear_gain t /\
  (0 < linear_gain t <-> 0 < t) /\
  (linear_gain t = 0 <-> t = 0) /\
  (linear_gain t < 0 <-> t < 0).
Proof.
  assert (Hm1 : -1 < linear_gain t).
  { unfold linear_gain, Rpower.
    pose proof (exp_pos (t / 20 * ln 10)). lra. }
  split; [exact Hm1|].
  destruct (Rtotal_order t 0) as [Hlt|[->|Hgt]].
  - pose proof (linear_gain_increasing t 0 Hlt) as H.
    rewrite linear_gain_0 in H. repeat split; intros; lra.
  - rewrite linear_gain_0. repeat split; intros; lra.
  - pose proof (linear_gain_increasing 0 t Hgt) as H.
    rewrite linear_gain_0 in H. repeat split; intros; lra.
Qed.

(** ** The boost controls and the bands they reach *)

(** X24: the boost controls reach only their own bands.  Moving the bass
    slider shifts the total gain of bands 0 to 2 by the change of the slider
    and leaves bands 3 to 9 alone; the treble slider does the same for bands
    7 to 9 and leaves bands 0 to 6 alone; the booster check box adds 8 dB to
    bands 0 to 2 when its state is 2 (checked) and nothing for any other
    state, and never touches bands 3 to 9. *)
Theorem boosts_reach_only_their_bands (app : EqualizerApp) (i : nat)
  (v state : Z) :
  total_gain (worker (update_bass app v)) i =
    total_gain (worker app) i
    + (if (i <=? 2)%nat then IZR v - bass_boost (worker app) else 0) /\
  total_gain (worker (update_treble app v)) i =
    total_gain (worker app) i
    + (if (7 <=? i)%nat then IZR v - treble_boost (worker app) else 0) /\
  total_gain (worker (toggle_bass_booster app state)) i =
    total_gain (worker app) i
    + (if (i <=? 2)%nat
       then (if Z.eqb state 2 then 8 else 0)
            - (if is_bass_booster_active (worker app) then 8 else 0)
       else 0).
Proof.
  unfold total_gain, update_bass, update_treble, toggle_bass_booster.
  cbn [worker gains bass_boost treble_boost is_bass_booster_active
       set_bass_boost set_treble_boost set_is_bass_booster_active].
  destruct (i <=? 2)%nat; destruct (7 <=? i)%nat;
    destruct (is_bass_booster_active (worker app));
    destruct (Z.eqb state 2); repeat split; lra.
Qed.

(** ** The pre-amp slider at 0 *)

(** X25: the pre-amp slider at 0 silences every band.  After
    [update_preamp(0)] the dry block is all zero, every filter is fed zeros
    from rest, and the processed block written to the device and the emitted
    spectrum are all zero, whatever the gains, boosts and filters are. *)
Theorem preamp_zero_mutes (app : EqualizerApp) (outdata : Np.block)
  (frames : nat) (d : Np.block) :
  let w := worker (update_preamp app 0) in
  is_playing w = true -> data w = Some d ->
  (current_frame w + frames <= length d)%nat ->
  cb_raised (callback w outdata frames) = None ->
  all_zero (cb_outdata (callback w outdata frames)) /\
  exists fft_data,
    cb_emitted (callback w outdata frames) = Some fft_data /\
    Forall (fun m => m = 0) fft_data.
Proof.
  cbv zeta. intros Hp Hd Hle Hr.
  apply (zero_block_outputs _ outdata frames d); trivial.
  unfold pre_clip, dry_chunk.
  apply all_zero_scale, band_loop_zero.
  cbn [update_preamp worker preamp set_preamp].
  replace (0 / 50.0) with 0 by (unfold Rdiv; ring).
  apply scale_by_zero.
Qed.

Lemma preamp_zero_mutes_witness :
  all_zero
    (cb_outdata
       (callback (worker (update_preamp (mkEqualizerApp w_loud []) 0))
                 [[7; 7]] 1)).
Proof.
  apply (preamp_zero_mutes (mkEqualizerApp w_loud []) [[7; 7]] 1
           [[1; -1]; [1; 1]]).
  - reflexivity.
  - reflexivity.
  - simpl. lia.
  - destruct (callback_normal_block
                (worker (update_preamp (mkEqualizerApp w_loud []) 0))
                [[7; 7]] 1 2 [[1; -1]; [1; 1]] eq_refl eq_refl
                ltac:(repeat constructor) ltac:(simpl; lia) ltac:(lia)
                eq_refl) as [fft [_ Hcb]].
    now rewrite Hcb.
Defined.
